(** * where-should-we-eat: the fortune wheel of [app.py]

    A shallow embedding of the two functions of [app.py] that carry logic,
    [spin_wheel] and [generate_wheel_svg], of the spin animation loop and of
    one whole run of the script (session state, data file, wheel section and
    admin panel), followed by the properties that hold of them and the
    places where the script departs from its description.

    Conventions of the embedding.
    - A Python [int] is a [Z].  A Python [float] is idealised as an exact
      rational [Q]: true division [/], [*], [+], [-] and [math.pow] are the
      exact operations, and equality of angles is [Qeq] ([==]).  Rounding is
      not modelled there; the module [Binary64] runs the angle arithmetic of
      the wheel in IEEE double precision, for the worked example.
    - A raised exception is the [Raise] constructor of [result].
    - [random.random()] reads the next value of an explicit stream of draws
      held in the [world], next to the list object that the argument of
      [spin_wheel] refers to.  The other functions only read their list
      argument and take it as a value.
    - Strings are compared and measured by bytes, which is Python's count of
      characters for ASCII names.
    - The SVG text is kept as the structured data it is printed from: one
      [segment] per [<path>]/[<text>] pair, holding every number and string
      that the f-strings interpolate.  [math.cos] and [math.sin] are not
      modelled: a segment keeps the angles (in degrees) that are handed to
      [math.radians]. *)

From Stdlib Require Import ZArith QArith Qround List String Lia Lqa Permutation Bool Arith SpecFloat.
From Equations Require Import Equations.
Import ListNotations.

Local Open Scope Q_scope.

(** ** Exceptions *)

Inductive exn : Type :=
| ZeroDivisionError
| ValueError
| IndexError.

Inductive result (A : Type) : Type :=
| Ok (a : A)
| Raise (e : exn).

Arguments Ok {A} a.
Arguments Raise {A} e.

Definition bind {A B : Type} (r : result A) (k : A -> result B) : result B :=
  match r with
  | Ok a => k a
  | Raise e => Raise e
  end.

Notation "x <- r ;; k" := (bind r (fun x => k))
  (at level 61, r at next level, right associativity).
Notation "' pat <- r ;; k" := (bind r (fun x => match x with pat => k end))
  (at level 61, pat pattern, r at next level, right associativity).

(** [a / b] on two Python ints: a float, or [ZeroDivisionError]. *)
Definition true_div (a b : Z) : result Q :=
  if (b =? 0)%Z then Raise ZeroDivisionError else Ok (inject_Z a / inject_Z b).

(** [xs[i]] for [0 <= i]. *)
Definition getitem {A : Type} (xs : list A) (i : nat) : result A :=
  match nth_error xs i with
  | Some x => Ok x
  | None => Raise IndexError
  end.

(** The builtin [sum] over ints: left to right, starting from [0]. *)
Definition sum (ws : list Z) : Z := fold_left Z.add ws 0%Z.

(** The exact sum of a list of floats. *)
Definition Qsum (qs : list Q) : Q := fold_right Qplus 0 qs.

(** ** Data model *)

(** One entry of [restaurants.json]: [{"name": ..., "probability": ...}]. *)
Record restaurant : Type := mkRestaurant {
  name : string;
  probability : Z
}.

(** [sum(r['probability'] for r in restaurants)] *)
Definition total_probability (restaurants : list restaurant) : Z :=
  sum (map probability restaurants).

(** ** [random.choices]

    The standard library routine that [spin_wheel] ends with, written after
    CPython's [Lib/random.py] and [Lib/bisect.py]. *)

(** [itertools.accumulate]: running sums, the first one being the first
    weight itself. *)
Fixpoint accumulate_from (acc : Q) (ws : list Q) : list Q :=
  match ws with
  | [] => []
  | w :: ws' => (acc + w) :: accumulate_from (acc + w) ws'
  end.

Definition accumulate (ws : list Q) : list Q :=
  match ws with
  | [] => []
  | w :: ws' => w :: accumulate_from w ws'
  end.

(** [bisect.bisect_right(a, x, lo, hi)]:
<<
    while lo < hi:
        mid = (lo + hi) // 2
        if x < a[mid]: hi = mid
        else: lo = mid + 1
    return lo
>> *)
Equations? bisect (a : list Q) (x : Q) (lo hi : nat) : result nat
  by wf (hi - lo)%nat lt :=
  bisect a x lo hi with lt_dec lo hi := {
    | right _ := Ok lo
    | left _ with nth_error a ((lo + hi) / 2) := {
        | None := Raise IndexError
        | Some a_mid with Qlt_le_dec x a_mid := {
            | left _ := bisect a x lo ((lo + hi) / 2)
            | right _ := bisect a x (S ((lo + hi) / 2)) hi } } }.
Proof.
  all: change (fst (Nat.divmod (lo + hi) 1 0 1)) with ((lo + hi) / 2)%nat.
  - assert ((lo + hi) / 2 < hi)%nat by (apply Nat.Div0.div_lt_upper_bound; lia).
    lia.
  - assert (lo <= (lo + hi) / 2)%nat by (apply Nat.div_le_lower_bound; lia).
    lia.
Qed.

(** [cum_weights[-1]] *)
Definition last_item {A : Type} (xs : list A) : result A :=
  match xs with
  | [] => Raise IndexError
  | x :: xs' => Ok (last xs' x)
  end.

(** What a call can read and change: the list object that the parameter
    [restaurants] refers to, and the random generator, given by the values
    its successive calls return and the number of calls made so far. *)
Record world : Type := mkWorld {
  restaurants_obj : list restaurant;
  draws : nat -> Q;
  drawn : nat
}.

(** [random.random()] *)
Definition random (w : world) : Q * world :=
  (draws w (drawn w), mkWorld (restaurants_obj w) (draws w) (S (drawn w))).

(** [random.choices(population, weights, k=1)[0]]: the checks, then one call
    of [random()], then the search in the running sums. *)
Definition choices {A : Type} (population : list A) (weights : list Q)
  (w : world) : result A * world :=
  let n := List.length population in
  let cum_weights := accumulate weights in
  if negb (List.length cum_weights =? n)%nat then (Raise ValueError, w) else
  match last_item cum_weights with
  | Raise e => (Raise e, w)
  | Ok total =>
      if Qle_bool total 0 then (Raise ValueError, w) else
      let (u, w') := random w in
      (i <- bisect cum_weights (u * total) 0 (n - 1) ;; getitem population i,
       w')
  end.

(** ** [spin_wheel] *)

(** [[f(x) for x in xs]] where [f] may raise. *)
Fixpoint comprehension {A B : Type} (f : A -> result B) (xs : list A)
  : result (list B) :=
  match xs with
  | [] => Ok []
  | x :: xs' => y <- f x ;; ys <- comprehension f xs' ;; Ok (y :: ys)
  end.

(** Lines 44 to 49: the weights, made uniform when they sum to zero, each
    divided by the total. *)
Definition normalize (weights : list Z) : result (list Q) :=
  let total := sum weights in
  let '(weights, total) :=
    if (total =? 0)%Z
    then (repeat 1%Z (List.length weights), Z.of_nat (List.length weights))
    else (weights, total) in
  comprehension (fun w => true_div w total) weights.

Definition spin_wheel (w : world) : result (option string) * world :=
  let restaurants := restaurants_obj w in
  match restaurants with
  | [] => (Ok None, w)
  | _ :: _ =>
      let names := map name restaurants in
      let weights := map probability restaurants in
      match normalize weights with
      | Raise e => (Raise e, w)
      | Ok normalized_weights =>
          let (r, w') := choices names normalized_weights w in
          (x <- r ;; Ok (Some x), w')
      end
  end.

(** ** [generate_wheel_svg] *)

Local Open Scope string_scope.

Definition colors : list string :=
  ["#FF6B6B"; "#4ECDC4"; "#45B7D1"; "#FFA07A"; "#98D8C8";
   "#F7DC6F"; "#BB8FCE"; "#85C1E2"; "#F8B739"; "#52C97F"].

(** The fill of the winner's segment. *)
Definition gold : string := "#FFD700".

(** What is returned for an empty list. *)
Definition empty_svg : string := "<svg></svg>".

(** The label of a segment: [name[:13] + '...'] when [len(name) > 15]. *)
Definition label (name : string) : string :=
  if (15 <? String.length name)%nat
  then substring 0 13 name ++ "..."
  else name.

Local Close Scope string_scope.

(** The values one turn of the loop of lines 76 to 111 computes and prints:
    [current_angle] on entry, [angle], the three angles handed to
    [math.radians], the arc flag, the fill, the rotation of the label and
    the label. *)
Record segment : Type := mkSegment {
  current_angle : Q;
  angle : Q;
  start_angle_deg : Q;
  end_angle_deg : Q;
  large_arc : Z;
  color : string;
  text_angle_deg : Q;
  text_rotation : Q;
  text : string
}.

(** The returned markup: the literal of the empty wheel, or the [<svg>]
    carrying [rotate(rotation deg)] and the segments in drawing order. *)
Inductive markup : Type :=
| Literal (s : string)
| Wheel (rotation : Q) (segments : list segment).

(** [highlight_index == idx], where [highlight_index] is [None] or an int. *)
Definition is_highlight (highlight_index : option Z) (idx : nat) : bool :=
  match highlight_index with
  | None => false
  | Some h => (h =? Z.of_nat idx)%Z
  end.

(** One turn of the loop of lines 76 to 111, for the restaurant at position
    [idx] and the running [current_angle]. *)
Definition draw_segment (total_prob : Z) (highlight_index : option Z)
  (idx : nat) (current_angle : Q) (restaurant : restaurant) : result segment :=
  share <- true_div (probability restaurant) total_prob ;;
  let angle := share * 360 in
  let large_arc := if Qlt_le_dec 180 angle then 1%Z else 0%Z in
  color <- getitem colors (idx mod List.length colors) ;;
  let color := if is_highlight highlight_index idx then gold else color in
  Ok (mkSegment current_angle angle
        (current_angle - 90) (current_angle + angle - 90)
        large_arc color
        (current_angle + angle / 2 - 90) (current_angle + angle / 2)
        (label (name restaurant))).

(** The loop [for idx, restaurant in enumerate(restaurants)], from position
    [idx] on; its last statement is [current_angle += angle]. *)
Fixpoint draw_segments (total_prob : Z) (highlight_index : option Z)
  (idx : nat) (current_angle : Q) (restaurants : list restaurant)
  : result (list segment) :=
  match restaurants with
  | [] => Ok []
  | restaurant :: rest =>
      seg <- draw_segment total_prob highlight_index idx current_angle
               restaurant ;;
      segs <- draw_segments total_prob highlight_index (S idx)
                (current_angle + angle seg) rest ;;
      Ok (seg :: segs)
  end.

Definition generate_wheel_svg (restaurants : list restaurant) (rotation : Q)
  (highlight_index : option Z) : result markup :=
  match restaurants with
  | [] => Ok (Literal empty_svg)
  | _ :: _ =>
      let total_prob := total_probability restaurants in
      segs <- draw_segments total_prob highlight_index 0 0 restaurants ;;
      Ok (Wheel rotation segs)
  end.

(** ** The spin animation (lines 150 to 166) *)

Definition spins : Z := 5.
Definition frames : nat := 60.

(** Line 147: the position of the first restaurant named [final_result]
    (the stored result of [spin_wheel], possibly [None]), or [0]. *)
Fixpoint find_named (final_result : option string) (idx : nat)
  (restaurants : list restaurant) : option nat :=
  match restaurants with
  | [] => None
  | r :: rest =>
      match final_result with
      | Some chosen =>
          if String.eqb (name r) chosen then Some idx
          else find_named final_result (S idx) rest
      | None => find_named final_result (S idx) rest
      end
  end.

Definition winner_index (restaurants : list restaurant)
  (final_result : option string) : nat :=
  match find_named final_result 0 restaurants with
  | Some i => i
  | None => 0%nat
  end.

(** The factor of [eased_progress] on line 157:
    [360 * spins + (360 * sum(... restaurants[:winner_idx+1]) / sum(...))]. *)
Definition target_rotation (restaurants : list restaurant) (winner_idx : nat)
  : result Q :=
  share <- true_div
             (360 * sum (map probability (firstn (winner_idx + 1) restaurants)))
             (total_probability restaurants) ;;
  Ok (inject_Z (360 * spins) + share).

(** [1 - math.pow(1 - progress, 3)] with [progress = frame / frames]. *)
Definition eased_progress (frame : nat) : Q :=
  let progress := inject_Z (Z.of_nat frame) / inject_Z (Z.of_nat frames) in
  1 - (1 - progress) ^ 3.

(** What is left of the way, [1 - progress]. *)
Definition remaining (frame : nat) : Q :=
  1 - inject_Z (Z.of_nat frame) / inject_Z (Z.of_nat frames).

(** The rotation of a frame, given the value of the target expression. *)
Definition rotation_at (target : Q) (frame : nat) : Q :=
  eased_progress frame * target.

(** [rotation] as assigned in the turn [frame] of the loop. *)
Definition frame_rotation (restaurants : list restaurant) (winner_idx : nat)
  (frame : nat) : result Q :=
  target <- target_rotation restaurants winner_idx ;;
  Ok (rotation_at target frame).

(** The loop [for frame in range(frames)]: [rotation] is the loop's variable
    of that name, [shown] what has been put in the placeholder so far. *)
Fixpoint animation_loop (restaurants : list restaurant) (winner_idx : nat)
  (range : list nat) (rotation : Q) (shown : list markup)
  : result (Q * list markup) :=
  match range with
  | [] => Ok (rotation, shown)
  | frame :: range' =>
      rotation <- frame_rotation restaurants winner_idx frame ;;
      svg <- generate_wheel_svg restaurants rotation None ;;
      animation_loop restaurants winner_idx range' rotation (shown ++ [svg])
  end.

(** The whole animation: the sixty frames, then the final position drawn
    with the value [rotation] has kept from the last turn and with the
    winner highlighted.  ([rotation] is unbound before the first turn; the
    loop always runs, so the [0] it starts from here is never read.) *)
Definition spin_animation (restaurants : list restaurant) (winner_idx : nat)
  : result (list markup) :=
  '(rotation, shown) <- animation_loop restaurants winner_idx
                          (seq 0 frames) 0 [] ;;
  final <- generate_wheel_svg restaurants rotation
             (Some (Z.of_nat winner_idx)) ;;
  Ok (shown ++ [final]).

(** The rotation a markup carries in its [style]. *)
Definition rotation_of (m : markup) : option Q :=
  match m with
  | Literal _ => None
  | Wheel rotation _ => Some rotation
  end.

(** ** The wheel on the screen

    The markup is an [<svg>] styled [transform: rotate(rotation deg)] under a
    pointer fixed at the top of its box.  A CSS rotation by a positive angle
    turns the drawing clockwise, the direction in which the segments are
    laid out from the top: the point of the wheel drawn at angle [a] is shown
    at angle [a + rotation], and the pointer rests on the point drawn at
    [- rotation], up to whole turns. *)

(** [q] reduced modulo a whole turn, into [[0, 360)]. *)
Definition mod360 (q : Q) : Q := q - 360 * inject_Z (Qfloor (q / 360)).

(** The angle, in the wheel as drawn, of the point under the pointer. *)
Definition under_pointer (rotation : Q) : Q := mod360 (- rotation).

(** The half-angle of a segment, where its label is placed. *)
Definition center (s : segment) : Q := current_angle s + angle s / 2.

(** A segment with another fill. *)
Definition with_color (c : string) (s : segment) : segment :=
  mkSegment (current_angle s) (angle s) (start_angle_deg s) (end_angle_deg s)
    (large_arc s) c (text_angle_deg s) (text_rotation s) (text s).

(** The segments of a drawing made without highlight, the one at the
    highlight index filled with gold; [idx] is the position of the first. *)
Fixpoint paint (highlight_index : option Z) (idx : nat) (plain : list segment)
  : list segment :=
  match plain with
  | [] => []
  | p :: ps =>
      (if is_highlight highlight_index idx then with_color gold p else p)
      :: paint highlight_index (S idx) ps
  end.

(** How the arc flag and the place of the label of a drawn segment follow
    from its angles. *)
Definition well_drawn (s : segment) : Prop :=
  large_arc s = (if Qlt_le_dec 180 (angle s) then 1%Z else 0%Z)
  /\ text_rotation s = current_angle s + angle s / 2
  /\ text_angle_deg s = current_angle s + angle s / 2 - 90.

(** ** The wheels of the worked examples *)

Local Open Scope string_scope.

Definition wheel3 : list restaurant :=
  [mkRestaurant "A" 10; mkRestaurant "B" 10; mkRestaurant "C" 80].

Definition zero_wheel : list restaurant :=
  [mkRestaurant "A" 0; mkRestaurant "B" 0].

Local Close Scope string_scope.

(** ** The angles in double precision

    The arithmetic on [angle] and [current_angle] of the loop of
    [generate_wheel_svg], in IEEE 754 binary64 with rounding to nearest even,
    which is what Python's floats do: [w / total_prob * 360] and
    [current_angle += angle], the ints converted exactly.  It is meant for a
    total that is not zero (Python raises there, the IEEE division does
    not). *)
Module Binary64.

Definition prec : Z := 53.
Definition emax : Z := 1024.

Definition of_int (z : Z) : spec_float := binary_normalize prec emax z 0 false.
Definition div : spec_float -> spec_float -> spec_float := SFdiv prec emax.
Definition mul : spec_float -> spec_float -> spec_float := SFmul prec emax.
Definition add : spec_float -> spec_float -> spec_float := SFadd prec emax.

(** The pairs [(current_angle, angle)] of the successive turns. *)
Fixpoint sweeps (total_prob : Z) (current_angle : spec_float)
  (weights : list Z) : list (spec_float * spec_float) :=
  match weights with
  | [] => []
  | w :: weights' =>
      let angle := mul (div (of_int w) (of_int total_prob)) (of_int 360) in
      (current_angle, angle)
      :: sweeps total_prob (add current_angle angle) weights'
  end.

End Binary64.

(** ** The script: one run of [app.py]

    Streamlit executes the script from top to bottom at every interaction.
    A run reads the session state and the data file, asks each widget it
    reaches for its value, and ends at the bottom, at a [st.rerun()] or at an
    exception.  The values of the widgets are an input of the run; what is
    put on the page is kept as a list of events, the messages by what they
    say rather than by their text.  [time.sleep] is not modelled. *)

Local Open Scope string_scope.

(** [os.getenv("ADMIN_PASSWORD", "change-me-now-12345")] *)
Definition ADMIN_PASSWORD (env : option string) : string :=
  match env with
  | Some p => p
  | None => "change-me-now-12345"
  end.

Local Close Scope string_scope.

(** [st.session_state] as the runs find and leave it: a key may be
    missing. *)
Record session_store : Type := mkStore {
  stored_spinning : option bool;
  stored_result : option (option string);
  stored_authenticated : option bool;
  stored_spin_angle : option Z
}.

(** [st.session_state] after lines 14 to 21, every key present. *)
Record session_state : Type := mkSession {
  ss_spinning : bool;
  ss_result : option string;
  ss_authenticated : bool;
  ss_spin_angle : Z
}.

(** Lines 14 to 21: each missing key gets its default. *)
Definition init_session (st : session_store) : session_state :=
  mkSession
    (match stored_spinning st with Some b => b | None => false end)
    (match stored_result st with Some r => r | None => None end)
    (match stored_authenticated st with Some b => b | None => false end)
    (match stored_spin_angle st with Some a => a | None => 0%Z end).

(** The data file: absent, or the list it holds as JSON. *)
Definition data_file_content : Type := option (list restaurant).

Definition load_restaurants (file : data_file_content) : list restaurant :=
  match file with
  | Some restaurants => restaurants
  | None => []
  end.

(** The values of the widgets in a run: the buttons pressed, the texts and
    numbers entered.  A field of the edit rows is [None] when untouched: the
    widget then returns its [value=] argument. *)
Record widgets : Type := mkWidgets {
  spin_clicked : bool;
  spin_again_clicked : bool;
  password_input : string;
  login_clicked : bool;
  logout_clicked : bool;
  add_name : string;
  add_prob : Z;
  add_clicked : bool;
  row_name : nat -> option string;
  row_prob : nat -> option Z;
  row_delete : nat -> bool
}.

Inductive event : Type :=
| ShowWheel (m : markup)
| Announce (final_result : option string)
| NoRestaurants
| WrongPassword
| AuthenticatedBanner
| Added (new_name : string)
| NeedName.

(** What a run works on: the list [restaurants] and the random generator,
    the data file with the number of times it was written, the session
    state, and the page so far. *)
Record app_state : Type := mkApp {
  mem : world;
  data_file : data_file_content;
  saves : nat;
  session : session_state;
  screen : list event
}.

Inductive halt : Type :=
| RerunRequested
| Raised (e : exn).

Inductive flow : Type :=
| Go
| Stop (h : halt).

Definition script : Type := app_state -> flow * app_state.

Definition then_ (a b : script) : script :=
  fun s => match a s with
           | (Go, s') => b s'
           | (Stop h, s') => (Stop h, s')
           end.

Definition show (e : event) (s : app_state) : app_state :=
  mkApp (mem s) (data_file s) (saves s) (session s) (screen s ++ [e]).

Definition set_session (ss : session_state) (s : app_state) : app_state :=
  mkApp (mem s) (data_file s) (saves s) ss (screen s).

Definition set_mem (w : world) (s : app_state) : app_state :=
  mkApp w (data_file s) (saves s) (session s) (screen s).

Definition set_restaurants (restaurants : list restaurant) (s : app_state)
  : app_state :=
  set_mem (mkWorld restaurants (draws (mem s)) (drawn (mem s))) s.

Definition set_spinning (b : bool) (s : app_state) : app_state :=
  set_session (mkSession b (ss_result (session s))
                 (ss_authenticated (session s)) (ss_spin_angle (session s))) s.

Definition set_result (r : option string) (s : app_state) : app_state :=
  set_session (mkSession (ss_spinning (session s)) r
                 (ss_authenticated (session s)) (ss_spin_angle (session s))) s.

Definition set_authenticated (b : bool) (s : app_state) : app_state :=
  set_session (mkSession (ss_spinning (session s)) (ss_result (session s))
                 b (ss_spin_angle (session s))) s.

(** [save_restaurants(restaurants)]: the file becomes the list as it is. *)
Definition save_restaurants (s : app_state) : app_state :=
  mkApp (mem s) (Some (restaurants_obj (mem s))) (S (saves s)) (session s)
    (screen s).

(** The truth value of [st.session_state.result]: a name that is not
    empty. *)
Definition truthy (r : option string) : bool :=
  match r with
  | Some (String _ _) => true
  | _ => false
  end.

(** Lines 137 to 193. *)
Definition main_section (ui : widgets) : script :=
  fun s =>
    let restaurants := restaurants_obj (mem s) in
    match restaurants with
    | [] => (Go, show NoRestaurants s)
    | _ :: _ =>
        let wheel : flow * app_state :=
          if ss_spinning (session s) then
            let final_result := ss_result (session s) in
            let winner_idx := winner_index restaurants final_result in
            match spin_animation restaurants winner_idx with
            | Raise e => (Stop (Raised e), s)
            | Ok ms =>
                let s := mkApp (mem s) (data_file s) (saves s) (session s)
                           (screen s ++ map ShowWheel ms) in
                (Go, show (Announce final_result) (set_spinning false s))
            end
          else
            match generate_wheel_svg restaurants 0 None with
            | Raise e => (Stop (Raised e), s)
            | Ok m => (Go, show (ShowWheel m) s)
            end in
        match wheel with
        | (Stop h, s) => (Stop h, s)
        | (Go, s) =>
            (* the button is [disabled=st.session_state.spinning] *)
            if spin_clicked ui && negb (ss_spinning (session s)) then
              match spin_wheel (mem s) with
              | (Raise e, w') => (Stop (Raised e), set_mem w' s)
              | (Ok chosen, w') =>
                  (Stop RerunRequested,
                   set_spinning true (set_result chosen (set_mem w' s)))
              end
            else if truthy (ss_result (session s))
                    && negb (ss_spinning (session s)) then
              if spin_again_clicked ui
              then (Stop RerunRequested, set_result None s)
              else (Go, s)
            else (Go, s)
        end
    end.

(** [str.isspace] on an ASCII character. *)
Definition isspace (c : Ascii.ascii) : bool :=
  let n := Ascii.nat_of_ascii c in
  ((9 <=? n) && (n <=? 13) || (28 <=? n) && (n <=? 32))%nat.

Fixpoint lstrip (s : string) : string :=
  match s with
  | EmptyString => EmptyString
  | String c s' => if isspace c then lstrip s' else s
  end.

Fixpoint rstrip (s : string) : string :=
  match s with
  | EmptyString => EmptyString
  | String c s' =>
      match rstrip s' with
      | EmptyString => if isspace c then EmptyString else String c EmptyString
      | String c' t => String c (String c' t)
      end
  end.

(** [str.strip()] *)
Definition strip (s : string) : string := rstrip (lstrip s).

(** [restaurants.pop(idx)] for an [idx] in range. *)
Definition pop {A : Type} (idx : nat) (xs : list A) : list A :=
  firstn idx xs ++ skipn (S idx) xs.

(** [restaurants[idx] = x] for an [idx] in range. *)
Definition setitem {A : Type} (idx : nat) (x : A) (xs : list A) : list A :=
  firstn idx xs ++ x :: skipn (S idx) xs.

(** The value a widget returns: what was entered, or its [value=]. *)
Definition widget_value {A : Type} (entered : option A) (value : A) : A :=
  match entered with
  | Some v => v
  | None => value
  end.

(** The loop of lines 237 to 267, from the row [idx] on, for at most
    [rows] rows: a pressed bin removes the row, saves and reruns; a row whose
    fields differ from the stored ones is replaced and saved. *)
Fixpoint edit_rows (ui : widgets) (rows : nat) (idx : nat) (s : app_state)
  : flow * app_state :=
  match rows with
  | O => (Go, s)
  | S rows' =>
      match nth_error (restaurants_obj (mem s)) idx with
      | None => (Go, s)
      | Some restaurant =>
          let new_name := widget_value (row_name ui idx) (name restaurant) in
          let new_prob :=
            widget_value (row_prob ui idx) (probability restaurant) in
          if row_delete ui idx then
            (Stop RerunRequested,
             save_restaurants
               (set_restaurants (pop idx (restaurants_obj (mem s))) s))
          else
            let s :=
              if negb (String.eqb new_name (name restaurant))
                 || negb (new_prob =? probability restaurant)%Z
              then save_restaurants
                     (set_restaurants
                        (setitem idx (mkRestaurant new_name new_prob)
                           (restaurants_obj (mem s))) s)
              else s in
            edit_rows ui rows' (S idx) s
      end
  end.

(** Lines 199 to 267. *)
Definition admin_section (env : option string) (ui : widgets) : script :=
  fun s =>
    if negb (ss_authenticated (session s)) then
      if login_clicked ui then
        if String.eqb (password_input ui) (ADMIN_PASSWORD env)
        then (Stop RerunRequested, set_authenticated true s)
        else (Go, show WrongPassword s)
      else (Go, s)
    else
      let s := show AuthenticatedBanner s in
      if logout_clicked ui
      then (Stop RerunRequested, set_authenticated false s)
      else
        let added : flow * app_state :=
          if add_clicked ui then
            match strip (add_name ui) with
            | String _ _ =>
                let restaurants :=
                  restaurants_obj (mem s)
                  ++ [mkRestaurant (strip (add_name ui)) (add_prob ui)] in
                (Stop RerunRequested,
                 show (Added (add_name ui))
                   (save_restaurants (set_restaurants restaurants s)))
            | EmptyString => (Go, show NeedName s)
            end
          else (Go, s) in
        match added with
        | (Stop h, s) => (Stop h, s)
        | (Go, s) =>
            match restaurants_obj (mem s) with
            | [] => (Go, s)
            | _ :: _ =>
                edit_rows ui (List.length (restaurants_obj (mem s))) 0 s
            end
        end.

(** One run of the script: the session defaults, [load_restaurants()], the
    wheel, the admin panel. *)
Definition run (env : option string) (ui : widgets) (st : session_store)
  (file : data_file_content) (draws : nat -> Q) (drawn : nat)
  : flow * app_state :=
  then_ (main_section ui) (admin_section env ui)
    (mkApp (mkWorld (load_restaurants file) draws drawn) file 0
       (init_session st) []).

(** The session state a run leaves for the next one. *)
Definition store_of (ss : session_state) : session_store :=
  mkStore (Some (ss_spinning ss)) (Some (ss_result ss))
    (Some (ss_authenticated ss)) (Some (ss_spin_angle ss)).

(** *** What the edit rows amount to

    Descriptions used to state what the loop of the edit rows leaves in the
    list. *)

(** The restaurant that the two fields of the row [idx] describe. *)
Definition edited (ui : widgets) (idx : nat) (r : restaurant) : restaurant :=
  mkRestaurant (widget_value (row_name ui idx) (name r))
    (widget_value (row_prob ui idx) (probability r)).

(** Whether a field of the row [idx] differs from what is stored. *)
Definition row_changed (ui : widgets) (idx : nat) (r : restaurant) : bool :=
  negb (String.eqb (widget_value (row_name ui idx) (name r)) (name r))
  || negb (widget_value (row_prob ui idx) (probability r) =? probability r)%Z.

(** Every restaurant replaced by what its row describes; [idx] is the row of
    the first. *)
Fixpoint edited_rows (ui : widgets) (idx : nat) (rs : list restaurant)
  : list restaurant :=
  match rs with
  | [] => []
  | r :: rest => edited ui idx r :: edited_rows ui (S idx) rest
  end.

(** The rows as the loop leaves them: edited up to the first row whose bin
    is pressed, that row removed, the rows after it untouched; and whether a
    bin was pressed. *)
Fixpoint rows_after (ui : widgets) (idx : nat) (rs : list restaurant)
  : bool * list restaurant :=
  match rs with
  | [] => (false, [])
  | r :: rest =>
      if row_delete ui idx then (true, rest)
      else let (pressed, rest') := rows_after ui (S idx) rest in
           (pressed, edited ui idx r :: rest')
  end.

(** A weight the number fields accept: [min_value=1], [max_value=100]. *)
Definition in_range (p : Z) : Prop := (1 <= p <= 100)%Z.



(** *** States and widgets of the worked examples *)


(** No button pressed, no field touched. *)
Definition quiet : widgets :=
  mkWidgets false false EmptyString false false EmptyString 10 false
    (fun _ => None) (fun _ => None) (fun _ => false).

Local Open Scope string_scope.



(** The add form filled and its button pressed. *)
Definition add_diner : widgets :=
  mkWidgets false false "" false false "  Diner " 25 true
    (fun _ => None) (fun _ => None) (fun _ => false).

(** The wheel button pressed. *)
Definition press_spin : widgets :=
  mkWidgets true false "" false false "" 10 false
    (fun _ => None) (fun _ => None) (fun _ => false).

Local Close Scope string_scope.

(** * Properties *)

(** ** Sums *)

Lemma fold_left_add_shift (ws : list Z) (a : Z) :
  fold_left Z.add ws a = (a + fold_left Z.add ws 0)%Z.
Proof.
  revert a. induction ws as [|w ws IH]; intro a; simpl.
  - lia.
  - rewrite (IH (a + w)%Z), (IH w). lia.
Qed.

Lemma sum_nil : sum [] = 0%Z.
Proof. reflexivity. Qed.

Lemma sum_cons (w : Z) (ws : list Z) : sum (w :: ws) = (w + sum ws)%Z.
Proof. unfold sum. simpl. apply fold_left_add_shift. Qed.

Lemma sum_app (xs ys : list Z) : sum (xs ++ ys) = (sum xs + sum ys)%Z.
Proof.
  induction xs as [|x xs IH].
  - rewrite sum_nil. simpl. lia.
  - simpl. rewrite !sum_cons, IH. lia.
Qed.

Lemma sum_repeat_1 (n : nat) : sum (repeat 1%Z n) = Z.of_nat n.
Proof.
  induction n as [|n IH].
  - reflexivity.
  - change (repeat 1%Z (S n)) with (1%Z :: repeat 1%Z n).
    rewrite sum_cons, IH. lia.
Qed.

Lemma sum_permutation (xs ys : list Z) : Permutation xs ys -> sum xs = sum ys.
Proof.
  induction 1 as [|x xs ys _ IH|x y xs|xs ys zs _ IH1 _ IH2].
  - reflexivity.
  - rewrite !sum_cons, IH. reflexivity.
  - rewrite !sum_cons. lia.
  - congruence.
Qed.

Lemma sum_nonneg (ws : list Z) : Forall (fun w => 0 <= w)%Z ws -> (0 <= sum ws)%Z.
Proof.
  induction 1 as [|w ws Hw _ IH].
  - rewrite sum_nil. lia.
  - rewrite sum_cons. lia.
Qed.

Lemma sum_firstn_le (n : nat) (ws : list Z) :
  Forall (fun w => 0 <= w)%Z ws -> (sum (firstn n ws) <= sum ws)%Z.
Proof.
  intro H. revert n. induction H as [|w ws Hw Hws IH]; intros [|n]; simpl;
    rewrite ?sum_nil, ?sum_cons; try lia.
  - pose proof (sum_nonneg ws Hws). lia.
  - specialize (IH n). lia.
Qed.

Lemma inject_Z_nonzero (t : Z) : t <> 0%Z -> ~ inject_Z t == 0.
Proof.
  intros Ht H. apply Ht. apply (proj1 (inject_Z_injective t 0)). exact H.
Qed.

Lemma Qsum_shares (t : Z) (ws : list Z) :
  t <> 0%Z ->
  Qsum (map (fun w => inject_Z w / inject_Z t) ws) == inject_Z (sum ws) / inject_Z t.
Proof.
  intro Ht. pose proof (inject_Z_nonzero t Ht) as Hq.
  induction ws as [|w ws IH]; simpl.
  - rewrite sum_nil. field. exact Hq.
  - rewrite IH, sum_cons, inject_Z_plus. field. exact Hq.
Qed.

(** ** Exceptions that cannot happen *)

Lemma true_div_ok (a b : Z) :
  b <> 0%Z -> true_div a b = Ok (inject_Z a / inject_Z b).
Proof.
  intro Hb. unfold true_div. destruct (Z.eqb_spec b 0); [contradiction|reflexivity].
Qed.

Lemma true_div_zero (a : Z) : true_div a 0 = Raise ZeroDivisionError.
Proof. reflexivity. Qed.

Lemma comprehension_shares (t : Z) (ws : list Z) :
  t <> 0%Z ->
  comprehension (fun w => true_div w t) ws
  = Ok (map (fun w => inject_Z w / inject_Z t) ws).
Proof.
  intro Ht. induction ws as [|w ws IH]; simpl.
  - reflexivity.
  - rewrite (true_div_ok w t Ht), IH. reflexivity.
Qed.

Lemma palette_lookup (idx : nat) :
  exists c, getitem colors (idx mod List.length colors) = Ok c
            /\ nth_error colors (idx mod 10) = Some c.
Proof.
  unfold getitem. change (List.length colors) with 10%nat.
  destruct (nth_error colors (idx mod 10)) as [c|] eqn:E.
  - exists c. split; reflexivity.
  - apply nth_error_None in E. change (List.length colors) with 10%nat in E.
    pose proof (Nat.mod_upper_bound idx 10). lia.
Qed.

(** ** The search of [random.choices] stays inside its bounds *)

Lemma bisect_in_range (a : list Q) (x : Q) (lo hi : nat) :
  (lo <= hi)%nat -> (hi <= List.length a)%nat ->
  exists i, bisect a x lo hi = Ok i /\ (lo <= i <= hi)%nat.
Proof.
  funelim (bisect a x lo hi); intros Hlo Hhi.
  - exists lo. split; [reflexivity | lia].
  - exfalso. apply nth_error_None in Heq.
    assert ((lo + hi) / 2 < hi)%nat by (apply Nat.Div0.div_lt_upper_bound; lia).
    lia.
  - assert ((lo + hi) / 2 < hi)%nat by (apply Nat.Div0.div_lt_upper_bound; lia).
    assert (lo <= (lo + hi) / 2)%nat by (apply Nat.div_le_lower_bound; lia).
    destruct H as [i [Hi Hr]]; [lia | lia |].
    exists i. split; [exact Hi | lia].
  - assert ((lo + hi) / 2 < hi)%nat by (apply Nat.Div0.div_lt_upper_bound; lia).
    assert (lo <= (lo + hi) / 2)%nat by (apply Nat.div_le_lower_bound; lia).
    destruct H as [i [Hi Hr]]; [lia | lia |].
    exists i. split; [exact Hi | lia].
Qed.

(** ** [spin_wheel] *)

Lemma accumulate_from_length (acc : Q) (ws : list Q) :
  List.length (accumulate_from acc ws) = List.length ws.
Proof.
  revert acc. induction ws as [|w ws IH]; intro acc; simpl; [|rewrite IH]; reflexivity.
Qed.

Lemma accumulate_length (ws : list Q) :
  List.length (accumulate ws) = List.length ws.
Proof.
  destruct ws as [|w ws]; simpl; [|rewrite accumulate_from_length]; reflexivity.
Qed.

Lemma last_cons {A : Type} (x d : A) (xs : list A) :
  last (x :: xs) d = last xs x.
Proof.
  revert x d. induction xs as [|y ys IH]; intros x d.
  - reflexivity.
  - change (last (x :: y :: ys) d) with (last (y :: ys) d).
    rewrite (IH y d), (IH y x). reflexivity.
Qed.

Lemma last_accumulate_from (acc : Q) (ws : list Q) :
  last (accumulate_from acc ws) acc == acc + Qsum ws.
Proof.
  revert acc. induction ws as [|w ws IH]; intro acc.
  - simpl. ring.
  - change (accumulate_from acc (w :: ws))
      with ((acc + w) :: accumulate_from (acc + w) ws).
    rewrite last_cons, IH. simpl. ring.
Qed.

(** The last running sum is the sum of the weights. *)
Lemma last_item_accumulate (w : Q) (ws : list Q) :
  exists total, last_item (accumulate (w :: ws)) = Ok total
                /\ total == Qsum (w :: ws).
Proof.
  exists (last (accumulate_from w ws) w). split.
  - reflexivity.
  - apply last_accumulate_from.
Qed.

(** What lines 44 to 49 compute: the weights kept or replaced by ones, each
    over a total that is not zero. *)
Lemma normalize_spec (weights : list Z) :
  weights <> [] ->
  exists (weights' : list Z) (total : Z),
    total <> 0%Z /\ sum weights' = total
    /\ List.length weights' = List.length weights
    /\ (sum weights = 0%Z -> weights' = repeat 1%Z (List.length weights))
    /\ (sum weights <> 0%Z -> weights' = weights)
    /\ normalize weights
       = Ok (map (fun w => inject_Z w / inject_Z total) weights').
Proof.
  intro Hne. unfold normalize.
  destruct (Z.eqb_spec (sum weights) 0) as [Hz|Hnz].
  - exists (repeat 1%Z (List.length weights)), (Z.of_nat (List.length weights)).
    assert (Hk : Z.of_nat (List.length weights) <> 0%Z).
    { destruct weights; [contradiction | simpl; lia]. }
    repeat split.
    + exact Hk.
    + apply sum_repeat_1.
    + apply repeat_length.
    + intro H. contradiction.
    + apply comprehension_shares. exact Hk.
  - exists weights, (sum weights). repeat split.
    + exact Hnz.
    + intro H. contradiction.
    + apply comprehension_shares. exact Hnz.
Qed.

(** The normalized weights sum to one. *)
Lemma normalize_total (weights : list Z) :
  weights <> [] ->
  exists ps, normalize weights = Ok ps
             /\ List.length ps = List.length weights /\ Qsum ps == 1.
Proof.
  intro Hne.
  destruct (normalize_spec weights Hne) as (ws' & t & Ht & Hs & Hl & _ & _ & E).
  eexists. split; [exact E|]. split.
  - rewrite length_map. exact Hl.
  - rewrite (Qsum_shares t ws' Ht), Hs. field. apply inject_Z_nonzero, Ht.
Qed.

(** With as many weights as candidates and a positive total, [choices]
    calls [random()] once and returns one of the candidates. *)
Lemma choices_picks {A : Type} (population : list A) (weights : list Q)
  (w : world) :
  population <> [] ->
  List.length weights = List.length population ->
  0 < Qsum weights ->
  exists i x, nth_error population i = Some x
              /\ choices population weights w = (Ok x, snd (random w)).
Proof.
  intros Hne Hlen Hpos. unfold choices.
  rewrite accumulate_length, Hlen, Nat.eqb_refl. simpl negb. cbv iota.
  destruct weights as [|q qs].
  { destruct population; [contradiction | discriminate]. }
  destruct (last_item_accumulate q qs) as (total & Et & Ht).
  rewrite Et.
  assert (Hq : Qle_bool total 0 = false).
  { destruct (Qle_bool total 0) eqn:E; [|reflexivity].
    apply Qle_bool_iff in E. rewrite Ht in E. lra. }
  rewrite Hq. unfold random at 1. cbv iota beta. 
  destruct (bisect_in_range (accumulate (q :: qs))
              (draws w (drawn w) * total) 0 (List.length population - 1))
    as (i & Ei & Hi).
  { lia. }
  { rewrite accumulate_length, Hlen. lia. }
  rewrite Ei. simpl bind. unfold getitem.
  destruct (nth_error population i) as [x|] eqn:Ex.
  - exists i, x. split; [exact Ex | reflexivity].
  - apply nth_error_None in Ex.
    destruct population; [contradiction | simpl in *; lia].
Qed.

Lemma spin_wheel_picks (w : world) :
  restaurants_obj w <> [] ->
  exists i r, nth_error (restaurants_obj w) i = Some r
              /\ spin_wheel w = (Ok (Some (name r)), snd (random w)).
Proof.
  intro Hne. unfold spin_wheel.
  destruct (restaurants_obj w) as [|r0 rs] eqn:El; [contradiction|].
  destruct (normalize_total (map probability (r0 :: rs))) as (ps & En & Hl & Hs).
  { discriminate. }
  rewrite En.
  destruct (choices_picks (map name (r0 :: rs)) ps w) as (i & x & Hx & Ec).
  { discriminate. }
  { rewrite Hl, !length_map. reflexivity. }
  { rewrite Hs. reflexivity. }
  rewrite Ec. simpl bind.
  rewrite nth_error_map in Hx.
  destruct (nth_error (r0 :: rs) i) as [r|] eqn:Er; [|discriminate].
  exists i, r. split; [exact Er|].
  simpl in Hx. injection Hx as <-. reflexivity.
Qed.

(** ** [generate_wheel_svg] *)

(** The sweep of a restaurant: its share of the total, in degrees. *)
Lemma draw_segment_ok (total_prob : Z) (hl : option Z) (idx : nat) (c : Q)
  (r : restaurant) :
  total_prob <> 0%Z ->
  exists s col,
    draw_segment total_prob hl idx c r = Ok s
    /\ nth_error colors (idx mod 10) = Some col
    /\ current_angle s = c
    /\ angle s = inject_Z (probability r) / inject_Z total_prob * 360
    /\ start_angle_deg s = c - 90
    /\ end_angle_deg s = c + angle s - 90
    /\ color s = (if is_highlight hl idx then gold else col)
    /\ text s = label (name r).
Proof.
  intro Ht. unfold draw_segment.
  rewrite (true_div_ok _ _ Ht).
  destruct (palette_lookup idx) as (col & Eg & En).
  cbn [bind]. rewrite Eg. cbn [bind].
  eexists. exists col. repeat split. exact En.
Qed.

Lemma draw_segment_zero_total (hl : option Z) (idx : nat) (c : Q)
  (r : restaurant) :
  draw_segment 0 hl idx c r = Raise ZeroDivisionError.
Proof. reflexivity. Qed.

(** The loop succeeds when the total is not zero, and draws one segment per
    restaurant: segment [i] starts at the angle the restaurants before it
    have swept and sweeps the share of restaurant [i]. *)
Lemma draw_segments_spec (total_prob : Z) (hl : option Z) :
  total_prob <> 0%Z ->
  forall (rs : list restaurant) (idx : nat) (c : Q),
  exists segs,
    draw_segments total_prob hl idx c rs = Ok segs
    /\ List.length segs = List.length rs
    /\ forall i r, nth_error rs i = Some r ->
       exists s col,
         nth_error segs i = Some s
         /\ nth_error colors ((idx + i) mod 10) = Some col
         /\ angle s = inject_Z (probability r) / inject_Z total_prob * 360
         /\ current_angle s
            == c + inject_Z (sum (map probability (firstn i rs)))
                   / inject_Z total_prob * 360
         /\ start_angle_deg s = current_angle s - 90
         /\ end_angle_deg s = current_angle s + angle s - 90
         /\ color s = (if is_highlight hl (idx + i) then gold else col)
         /\ text s = label (name r).
Proof.
  intro Ht. pose proof (inject_Z_nonzero _ Ht) as Hq.
  induction rs as [|r0 rs IH]; intros idx c.
  - exists []. repeat split. intros [|i] r H; discriminate.
  - destruct (draw_segment_ok total_prob hl idx c r0 Ht)
      as (s0 & col0 & E0 & Hc0 & Hcur & Hang & Hst & Hen & Hcol & Htx).
    destruct (IH (S idx) (c + angle s0)) as (segs & Es & Hl & Hs).
    exists (s0 :: segs). split; [|split].
    + simpl. rewrite E0. simpl bind. rewrite Es. reflexivity.
    + simpl. rewrite Hl. reflexivity.
    + intros [|i] r Hr.
      * simpl in Hr. injection Hr as <-.
        exists s0, col0. rewrite Nat.add_0_r.
        repeat split; try assumption; try congruence.
        rewrite Hcur. simpl firstn. simpl map. rewrite sum_nil.
        field. exact Hq.
      * simpl in Hr. destruct (Hs i r Hr)
          as (s & col & Es' & Hc & Ha & Hcu & Hst' & Hen' & Hco & Htx').
        exists s, col. replace (idx + S i)%nat with (S idx + i)%nat by lia.
        repeat split; try assumption.
        rewrite Hcu, Hang. simpl firstn. simpl map.
        rewrite sum_cons, inject_Z_plus. field. exact Hq.
Qed.

(** The sweeps of the drawn segments add up to the share of the whole
    list. *)
Lemma draw_segments_sweeps (total_prob : Z) (hl : option Z)
  (rs : list restaurant) (idx : nat) (c : Q) (segs : list segment) :
  total_prob <> 0%Z ->
  draw_segments total_prob hl idx c rs = Ok segs ->
  Qsum (map angle segs)
  == inject_Z (sum (map probability rs)) / inject_Z total_prob * 360.
Proof.
  intro Ht. pose proof (inject_Z_nonzero _ Ht) as Hq.
  revert idx c segs. induction rs as [|r0 rs IH]; intros idx c segs E.
  - simpl in E. injection E as <-. simpl. rewrite sum_nil. field. exact Hq.
  - simpl in E.
    destruct (draw_segment_ok total_prob hl idx c r0 Ht)
      as (s0 & col0 & E0 & _ & _ & Hang & _).
    rewrite E0 in E. simpl bind in E.
    destruct (draw_segments total_prob hl (S idx) (c + angle s0) rs)
      as [segs'|e] eqn:Es; [|discriminate].
    simpl in E. injection E as <-.
    simpl. rewrite (IH _ _ _ Es), Hang, sum_cons, inject_Z_plus.
    field. exact Hq.
Qed.

(** On a list that is not empty the markup is a wheel carrying the given
    rotation, whenever the total is not zero. *)
Lemma generate_wheel_svg_ok (restaurants : list restaurant) (rotation : Q)
  (hl : option Z) :
  restaurants <> [] -> total_probability restaurants <> 0%Z ->
  exists segs,
    generate_wheel_svg restaurants rotation hl = Ok (Wheel rotation segs)
    /\ draw_segments (total_probability restaurants) hl 0 0 restaurants
       = Ok segs.
Proof.
  intros Hne Ht.
  destruct (draw_segments_spec _ hl Ht restaurants 0%nat 0) as (segs & E & _).
  exists segs. split; [|exact E].
  unfold generate_wheel_svg. destruct restaurants; [contradiction|].
  rewrite E. reflexivity.
Qed.

(** With a zero total the first division of the loop raises. *)
Lemma generate_wheel_svg_zero_total (restaurants : list restaurant)
  (rotation : Q) (hl : option Z) :
  restaurants <> [] -> total_probability restaurants = 0%Z ->
  generate_wheel_svg restaurants rotation hl = Raise ZeroDivisionError.
Proof.
  intros Hne Ht. unfold generate_wheel_svg.
  destruct restaurants as [|r rs]; [contradiction|].
  rewrite Ht. reflexivity.
Qed.

Lemma sum_firstn_succ (ws : list Z) (i : nat) (x : Z) :
  nth_error ws i = Some x ->
  sum (firstn (S i) ws) = (sum (firstn i ws) + x)%Z.
Proof.
  revert ws. induction i as [|i IH]; intros [|w ws] H; try discriminate.
  - simpl in H. injection H as ->. simpl firstn.
    rewrite sum_cons, !sum_nil. lia.
  - simpl in H. change (firstn (S (S i)) (w :: ws)) with (w :: firstn (S i) ws).
    change (firstn (S i) (w :: ws)) with (w :: firstn i ws).
    rewrite !sum_cons, (IH ws H). lia.
Qed.

Lemma total_probability_nonempty (restaurants : list restaurant) :
  total_probability restaurants <> 0%Z -> restaurants <> [].
Proof. intros H E. apply H. rewrite E. reflexivity. Qed.

(** The wheel drawn for a list whose total is not zero. *)
Lemma generate_wheel_svg_spec (restaurants : list restaurant) (rotation : Q)
  (hl : option Z) :
  total_probability restaurants <> 0%Z ->
  exists segs,
    generate_wheel_svg restaurants rotation hl = Ok (Wheel rotation segs)
    /\ List.length segs = List.length restaurants
    /\ Qsum (map angle segs) == 360
    /\ forall i r, nth_error restaurants i = Some r ->
       exists s col,
         nth_error segs i = Some s
         /\ nth_error colors (i mod 10) = Some col
         /\ angle s = inject_Z (probability r)
                      / inject_Z (total_probability restaurants) * 360
         /\ current_angle s
            == inject_Z (sum (map probability (firstn i restaurants)))
               / inject_Z (total_probability restaurants) * 360
         /\ start_angle_deg s = current_angle s - 90
         /\ end_angle_deg s = current_angle s + angle s - 90
         /\ color s = (if is_highlight hl i then gold else col)
         /\ text s = label (name r).
Proof.
  intro Ht.
  destruct (draw_segments_spec _ hl Ht restaurants 0%nat 0) as (segs & E & Hl & Hs).
  exists segs. split; [|split; [exact Hl|split]].
  - unfold generate_wheel_svg.
    destruct restaurants as [|r0 rs] eqn:El.
    + exfalso. apply Ht. reflexivity.
    + rewrite E. reflexivity.
  - rewrite (draw_segments_sweeps _ _ _ _ _ _ Ht E).
    fold (total_probability restaurants). field.
    apply inject_Z_nonzero, Ht.
  - intros i r Hr.
    destruct (Hs i r Hr) as (s & col & H1 & H2 & H3 & H4 & H5 & H6 & H7 & H8).
    exists s, col. simpl in H2, H7.
    repeat split; try assumption.
    rewrite H4. ring.
Qed.

(** The winner's fill is not a colour of the palette. *)
Lemma gold_not_in_palette : ~ In gold colors.
Proof.
  intro H. repeat (destruct H as [H|H]; [discriminate|]). exact H.
Qed.

(** The highlight index changes the fill of a segment and nothing else: a
    drawing is the drawing made without highlight, painted. *)
Lemma draw_segment_paint (total_prob : Z) (hl : option Z) (idx : nat) (c : Q)
  (r : restaurant) :
  draw_segment total_prob hl idx c r
  = (p <- draw_segment total_prob None idx c r ;;
     Ok (if is_highlight hl idx then with_color gold p else p)).
Proof.
  unfold draw_segment.
  destruct (true_div (probability r) total_prob) as [share|e]; [|reflexivity].
  cbn [bind].
  destruct (getitem colors (idx mod List.length colors)) as [col|e];
    [|reflexivity].
  cbn [bind]. destruct (is_highlight hl idx); reflexivity.
Qed.

Lemma draw_segments_paint (total_prob : Z) (hl : option Z)
  (rs : list restaurant) :
  forall (idx : nat) (c : Q),
    draw_segments total_prob hl idx c rs
    = (plain <- draw_segments total_prob None idx c rs ;;
       Ok (paint hl idx plain)).
Proof.
  induction rs as [|r rs IH]; intros idx c.
  - reflexivity.
  - cbn [draw_segments]. rewrite draw_segment_paint.
    destruct (draw_segment total_prob None idx c r) as [p|e]; [|reflexivity].
    cbn [bind].
    assert (Ea : angle (if is_highlight hl idx then with_color gold p else p)
                 = angle p) by (destruct (is_highlight hl idx); reflexivity).
    rewrite Ea, IH.
    destruct (draw_segments total_prob None (S idx) (c + angle p) rs)
      as [ps|e]; reflexivity.
Qed.

Lemma generate_wheel_svg_paint (restaurants : list restaurant) (rotation : Q)
  (hl : option Z) (plain : list segment) :
  generate_wheel_svg restaurants rotation None = Ok (Wheel rotation plain) ->
  generate_wheel_svg restaurants rotation hl
  = Ok (Wheel rotation (paint hl 0 plain)).
Proof.
  unfold generate_wheel_svg. destruct restaurants as [|r rs]; [discriminate|].
  rewrite (draw_segments_paint _ hl).
  destruct (draw_segments (total_probability (r :: rs)) None 0 0 (r :: rs))
    as [ps|e]; [|discriminate].
  cbn [bind]. intro E. injection E as ->. reflexivity.
Qed.

Lemma nth_error_paint (hl : option Z) (plain : list segment) :
  forall (idx i : nat),
    nth_error (paint hl idx plain) i
    = option_map
        (fun p => if is_highlight hl (idx + i) then with_color gold p else p)
        (nth_error plain i).
Proof.
  induction plain as [|p ps IH]; intros idx [|i]; try reflexivity.
  - simpl. rewrite Nat.add_0_r. reflexivity.
  - simpl. rewrite IH. replace (S idx + i)%nat with (idx + S i)%nat by lia.
    reflexivity.
Qed.

Lemma paint_length (hl : option Z) (plain : list segment) (idx : nat) :
  List.length (paint hl idx plain) = List.length plain.
Proof.
  revert idx. induction plain as [|p ps IH]; intro idx; simpl;
    [|rewrite IH]; reflexivity.
Qed.

(** ** The animation schedule *)

Lemma cube_expand (x : Q) : x ^ 3 == x * x * x.
Proof. simpl. ring. Qed.

Lemma cube_monotone (a b : Q) : 0 <= b -> b <= a -> b ^ 3 <= a ^ 3.
Proof.
  intros Hb Hab. rewrite !cube_expand.
  assert (Haa : 0 <= a * a) by (apply Qmult_le_0_compat; lra).
  assert (Hab' : 0 <= a * b) by (apply Qmult_le_0_compat; lra).
  assert (Hbb : 0 <= b * b) by (apply Qmult_le_0_compat; lra).
  assert (P : 0 <= (a - b) * (a * a + a * b + b * b))
    by (apply Qmult_le_0_compat; lra).
  apply Qle_minus_iff.
  setoid_replace (a * a * a + - (b * b * b))
    with ((a - b) * (a * a + a * b + b * b)) by ring.
  exact P.
Qed.

Lemma remaining_antitone (i j : nat) :
  (i <= j)%nat -> remaining j <= remaining i.
Proof.
  intro H. unfold remaining.
  assert (Hz : inject_Z (Z.of_nat i) <= inject_Z (Z.of_nat j)).
  { rewrite <- Zle_Qle. lia. }
  unfold Qdiv. change (/ inject_Z (Z.of_nat frames)) with (1 # 60).
  lra.
Qed.

Lemma remaining_nonneg (j : nat) : (j <= frames)%nat -> 0 <= remaining j.
Proof.
  intro H. unfold remaining.
  assert (Hz : inject_Z (Z.of_nat j) <= inject_Z (Z.of_nat frames)).
  { rewrite <- Zle_Qle. lia. }
  unfold Qdiv. change (/ inject_Z (Z.of_nat frames)) with (1 # 60).
  change (inject_Z (Z.of_nat frames)) with 60 in Hz.
  lra.
Qed.

Lemma eased_progress_first : eased_progress 0 == 0.
Proof. reflexivity. Qed.

(** The last turn of the loop is [frame = 59]: the eased progress stops one
    part in 216000 short of one. *)
Lemma eased_progress_last : eased_progress (frames - 1) == 215999 # 216000.
Proof. reflexivity. Qed.

Lemma eased_progress_monotone (i j : nat) :
  (i <= j <= frames)%nat -> eased_progress i <= eased_progress j.
Proof.
  intros [Hij Hj].
  pose proof (cube_monotone (remaining i) (remaining j)
                (remaining_nonneg j Hj) (remaining_antitone i j Hij)) as H.
  unfold eased_progress. fold (remaining i) (remaining j). lra.
Qed.

Lemma eased_progress_nonneg (i : nat) :
  (i <= frames)%nat -> 0 <= eased_progress i.
Proof.
  intro H. rewrite <- eased_progress_first.
  apply eased_progress_monotone. lia.
Qed.

Lemma rotation_at_first (target : Q) : rotation_at target 0 == 0.
Proof. unfold rotation_at. rewrite eased_progress_first. ring. Qed.

Lemma rotation_at_monotone (target : Q) (i j : nat) :
  0 <= target -> (i <= j <= frames)%nat ->
  rotation_at target i <= rotation_at target j.
Proof.
  intros Ht Hij. unfold rotation_at.
  pose proof (eased_progress_monotone i j Hij). nra.
Qed.

Lemma rotation_at_last (target : Q) :
  rotation_at target (frames - 1) == target - target / 216000.
Proof. unfold rotation_at. rewrite eased_progress_last. field. Qed.

(** The target of the animation: five turns and the share of the wheel up
    to the end of the winner's segment. *)
Lemma target_rotation_ok (restaurants : list restaurant) (winner_idx : nat) :
  total_probability restaurants <> 0%Z ->
  target_rotation restaurants winner_idx
  = Ok (inject_Z (360 * spins)
        + inject_Z (360 * sum (map probability
                                 (firstn (winner_idx + 1) restaurants)))
          / inject_Z (total_probability restaurants)).
Proof.
  intro Ht. unfold target_rotation. rewrite (true_div_ok _ _ Ht). reflexivity.
Qed.

Lemma target_rotation_zero_total (restaurants : list restaurant)
  (winner_idx : nat) :
  total_probability restaurants = 0%Z ->
  target_rotation restaurants winner_idx = Raise ZeroDivisionError.
Proof. intro Ht. unfold target_rotation. rewrite Ht. reflexivity. Qed.

Lemma target_rotation_lower_bound (restaurants : list restaurant)
  (winner_idx : nat) :
  Forall (fun r => 0 <= probability r)%Z restaurants ->
  (0 < total_probability restaurants)%Z ->
  exists target, target_rotation restaurants winner_idx = Ok target
                 /\ 1800 <= target.
Proof.
  intros Hw Ht. eexists. split.
  - apply target_rotation_ok. lia.
  - assert (Hs : (0 <= sum (map probability
                                 (firstn (winner_idx + 1) restaurants)))%Z).
    { apply sum_nonneg. apply Forall_map.
      rewrite <- (firstn_skipn (winner_idx + 1) restaurants) in Hw.
      apply Forall_app in Hw. apply Hw. }
    change (inject_Z (360 * spins)) with 1800.
    assert (H0 : 0 <= inject_Z (360 * sum (map probability
                       (firstn (winner_idx + 1) restaurants)))).
    { rewrite Zle_Qle in Hs. rewrite inject_Z_mult.
      change (inject_Z 360) with 360. change (inject_Z 0) with 0 in Hs. lra. }
    assert (H1 : 0 < inject_Z (total_probability restaurants)).
    { rewrite Zlt_Qlt in Ht. exact Ht. }
    assert (H2 : 0 <= inject_Z (360 * sum (map probability
                       (firstn (winner_idx + 1) restaurants)))
                     / inject_Z (total_probability restaurants)).
    { apply Qle_shift_div_l; [exact H1|]. lra. }
    lra.
Qed.

(** The loop over any range of frames, when neither the target expression
    nor the drawing raises. *)
Lemma animation_loop_spec (restaurants : list restaurant) (winner_idx : nat)
  (target : Q) (segs : list segment) :
  target_rotation restaurants winner_idx = Ok target ->
  (forall rotation,
     generate_wheel_svg restaurants rotation None = Ok (Wheel rotation segs)) ->
  forall (range : list nat) (rotation : Q) (shown : list markup),
    animation_loop restaurants winner_idx range rotation shown
    = Ok (last (map (rotation_at target) range) rotation,
          shown ++ map (fun frame => Wheel (rotation_at target frame) segs) range).
Proof.
  intros Et Eg. induction range as [|frame range IH]; intros rotation shown.
  - simpl. rewrite app_nil_r. reflexivity.
  - cbn [animation_loop]. unfold frame_rotation. rewrite Et. cbn [bind].
    rewrite Eg. cbn [bind]. rewrite IH. rewrite <- app_assoc. simpl app.
    f_equal. f_equal.
    change (map (rotation_at target) (frame :: range))
      with (rotation_at target frame :: map (rotation_at target) range).
    rewrite last_cons. reflexivity.
Qed.

(** The sixty-one markups of a spin: frames 0 to 59 without highlight, then
    the position of frame 59 again with the winner highlighted. *)
Lemma spin_animation_spec (restaurants : list restaurant) (winner_idx : nat) :
  restaurants <> [] -> total_probability restaurants <> 0%Z ->
  exists target segs segs',
    target_rotation restaurants winner_idx = Ok target
    /\ (forall rotation, generate_wheel_svg restaurants rotation None
                         = Ok (Wheel rotation segs))
    /\ (forall rotation, generate_wheel_svg restaurants rotation
                           (Some (Z.of_nat winner_idx))
                         = Ok (Wheel rotation segs'))
    /\ spin_animation restaurants winner_idx
       = Ok (map (fun frame => Wheel (rotation_at target frame) segs)
               (seq 0 frames)
             ++ [Wheel (rotation_at target (frames - 1)) segs']).
Proof.
  intros Hne Ht.
  destruct (generate_wheel_svg_ok restaurants 0 None Hne Ht) as (segs & _ & Ed).
  destruct (generate_wheel_svg_ok restaurants 0 (Some (Z.of_nat winner_idx))
              Hne Ht) as (segs' & _ & Ed').
  assert (G : forall hl sg, draw_segments (total_probability restaurants) hl
                              0 0 restaurants = Ok sg ->
              forall rotation, generate_wheel_svg restaurants rotation hl
                               = Ok (Wheel rotation sg)).
  { intros hl sg E rotation. unfold generate_wheel_svg.
    destruct restaurants; [contradiction|]. rewrite E. reflexivity. }
  eexists. exists segs, segs'.
  split; [apply target_rotation_ok; exact Ht|].
  split; [apply G; exact Ed|]. split; [apply G; exact Ed'|].
  unfold spin_animation.
  rewrite (animation_loop_spec restaurants winner_idx _ segs
             (target_rotation_ok restaurants winner_idx Ht) (G _ _ Ed)).
  cbn [bind]. rewrite (G _ _ Ed'). cbn [bind]. reflexivity.
Qed.

(** The frame shown at each position of the animation: position [i] shows
    frame [i], and the final, highlighted position shows frame 59 again. *)
Lemma shown_frame (i frame : nat) :
  nth_error (seq 0 frames ++ [(frames - 1)%nat]) i = Some frame ->
  frame = Nat.min i (frames - 1).
Proof.
  intro H. destruct (Nat.lt_ge_cases i frames) as [Hlt|Hge].
  - rewrite nth_error_app1 in H by (rewrite length_seq; exact Hlt).
    rewrite nth_error_seq in H.
    destruct (Nat.ltb_spec i frames) as [_|Hc]; [|lia].
    injection H as <-. unfold frames in *. lia.
  - rewrite nth_error_app2 in H by (rewrite length_seq; exact Hge).
    rewrite length_seq in H.
    destruct (i - frames)%nat as [|n] eqn:En.
    + simpl in H. injection H as <-. unfold frames in *. lia.
    + destruct n; discriminate.
Qed.

(** What the last turn of the loop leaves in [rotation]: the target less one
    part in 216000 of it, for every list whose total is not zero. *)
Lemma last_frame_falls_short (restaurants : list restaurant)
  (winner_idx : nat) :
  total_probability restaurants <> 0%Z ->
  exists target ms segs segs',
    target_rotation restaurants winner_idx = Ok target
    /\ spin_animation restaurants winner_idx = Ok ms
    /\ nth_error ms (frames - 1)
       = Some (Wheel (rotation_at target (frames - 1)) segs)
    /\ nth_error ms frames
       = Some (Wheel (rotation_at target (frames - 1)) segs')
    /\ List.length ms = S frames
    /\ rotation_at target (frames - 1) == target - target / 216000.
Proof.
  intro Ht.
  destruct (spin_animation_spec restaurants winner_idx
              (total_probability_nonempty _ Ht) Ht)
    as (target & segs & segs' & Et & _ & _ & Ea).
  exists target. eexists. exists segs, segs'.
  split; [exact Et|]. split; [exact Ea|]. split; [|split; [|split]].
  - rewrite nth_error_app1 by (rewrite length_map, length_seq; unfold frames; lia).
    rewrite nth_error_map, nth_error_seq. reflexivity.
  - rewrite nth_error_app2 by (rewrite length_map, length_seq; lia).
    rewrite length_map, length_seq, Nat.sub_diag. reflexivity.
  - rewrite length_app, length_map, length_seq. reflexivity.
  - apply rotation_at_last.
Qed.

(** The target expression is five turns plus the angle at which the
    winner's segment ends: its trailing edge, not its half-angle. *)
Lemma target_is_trailing_edge (restaurants : list restaurant)
  (winner_idx : nat) (rotation : Q) (hl : option Z) (winner : restaurant) :
  total_probability restaurants <> 0%Z ->
  nth_error restaurants winner_idx = Some winner ->
  exists target segs s,
    target_rotation restaurants winner_idx = Ok target
    /\ generate_wheel_svg restaurants rotation hl = Ok (Wheel rotation segs)
    /\ nth_error segs winner_idx = Some s
    /\ target == 1800 + (current_angle s + angle s)
    /\ target == 1800 + center s + angle s / 2.
Proof.
  intros Ht Hw. pose proof (inject_Z_nonzero _ Ht) as Hq.
  destruct (generate_wheel_svg_spec restaurants rotation hl Ht)
    as (segs & E & _ & _ & Hs).
  destruct (Hs winner_idx winner Hw) as (s & _ & H1 & _ & H3 & H4 & _).
  eexists. exists segs, s.
  split; [apply target_rotation_ok; exact Ht|].
  split; [exact E|]. split; [exact H1|].
  assert (Hedge : inject_Z (360 * spins)
                  + inject_Z (360 * sum (map probability
                                (firstn (winner_idx + 1) restaurants)))
                    / inject_Z (total_probability restaurants)
                  == 1800 + (current_angle s + angle s)).
  { rewrite H4, H3, Nat.add_1_r, <- !firstn_map.
    rewrite (sum_firstn_succ (map probability restaurants) winner_idx
               (probability winner))
      by (rewrite nth_error_map, Hw; reflexivity).
    rewrite inject_Z_mult, inject_Z_mult, inject_Z_plus.
    change (inject_Z 360) with 360. change (inject_Z spins) with 5.
    field. exact Hq. }
  split; [exact Hedge|].
  rewrite Hedge. unfold center. field.
Qed.

(** ** Which option a draw selects *)











(** ** The worked example in double precision *)

(** For the options A:10, B:10, C:80 the floats of the loop are exactly
    36.0, 36.0 and 288.0, starting at 0, 36.0 and 72.0 and ending at
    360.0: on this example rounding changes nothing. *)
Lemma wheel3_sweeps_binary64 :
  Binary64.sweeps (total_probability wheel3) (Binary64.of_int 0)
    (map probability wheel3)
  = [(Binary64.of_int 0, Binary64.of_int 36);
     (Binary64.of_int 36, Binary64.of_int 36);
     (Binary64.of_int 72, Binary64.of_int 288)]
  /\ Binary64.add (Binary64.of_int 72) (Binary64.of_int 288)
     = Binary64.of_int 360.
Proof. split; vm_compute; reflexivity. Qed.

(** * The claims *)

(** C8.  For the empty list of options, [generate_wheel_svg] returns the
    empty placeholder markup [<svg></svg>] and raises nothing, whatever the
    rotation and the highlight index. *)
Theorem empty_wheel_placeholder (rotation : Q) (highlight_index : option Z) :
  generate_wheel_svg [] rotation highlight_index = Ok (Literal empty_svg)
  /\ empty_svg = "<svg></svg>"%string.
Proof. split; reflexivity. Qed.

(** C3.  Rendering a list whose weights sum to zero does raise: on the two
    options of weight zero, [generate_wheel_svg] ends in
    [ZeroDivisionError] for every rotation and highlight index, while
    [spin_wheel] on the same list selects an option. *)
Theorem zero_total_wheel_raises (rotation : Q) (highlight_index : option Z)
  (draws : nat -> Q) (drawn : nat) :
  total_probability zero_wheel = 0%Z
  /\ generate_wheel_svg zero_wheel rotation highlight_index
     = Raise ZeroDivisionError
  /\ exists chosen,
       fst (spin_wheel (mkWorld zero_wheel draws drawn)) = Ok (Some chosen).
Proof.
  split; [reflexivity|]. split; [reflexivity|].
  destruct (spin_wheel_picks (mkWorld zero_wheel draws drawn))
    as (i & r & _ & E).
  - discriminate.
  - exists (name r). rewrite E. reflexivity.
Qed.

(** C7.  [spin_wheel] returns [None] exactly when the list is empty; on a
    list that is not empty it returns the name of the option at some
    position of the list.  In both cases the list object is left as it was
    (the only effect is the one call of [random()] of the second case). *)
Theorem spin_wheel_selects_one (w : world) :
  (restaurants_obj w = [] -> spin_wheel w = (Ok None, w))
  /\ (restaurants_obj w <> [] ->
      exists i r,
        nth_error (restaurants_obj w) i = Some r
        /\ spin_wheel w
           = (Ok (Some (name r)),
              mkWorld (restaurants_obj w) (draws w) (S (drawn w))))
  /\ (fst (spin_wheel w) = Ok None <-> restaurants_obj w = [])
  /\ restaurants_obj (snd (spin_wheel w)) = restaurants_obj w.
Proof.
  assert (H0 : restaurants_obj w = [] -> spin_wheel w = (Ok None, w)).
  { intro E. unfold spin_wheel. rewrite E. reflexivity. }
  assert (H1 : restaurants_obj w <> [] ->
      exists i r,
        nth_error (restaurants_obj w) i = Some r
        /\ spin_wheel w
           = (Ok (Some (name r)),
              mkWorld (restaurants_obj w) (draws w) (S (drawn w)))).
  { intro Hne. destruct (spin_wheel_picks w Hne) as (i & r & Hr & E).
    exists i, r. split; [exact Hr | exact E]. }
  split; [exact H0|]. split; [exact H1|]. split.
  - split.
    + intro E. destruct (restaurants_obj w) as [|r0 rs] eqn:El; [reflexivity|].
      destruct H1 as (i & r & _ & E'); [discriminate|].
      rewrite E' in E. discriminate.
    + intro E. rewrite (H0 E). reflexivity.
  - destruct (restaurants_obj w) as [|r0 rs] eqn:El.
    + rewrite (H0 eq_refl). exact El.
    + destruct H1 as (i & r & _ & E'); [discriminate|].
      rewrite E'. reflexivity.
Qed.

Lemma spin_wheel_selects_one_witness :
  exists i r,
    nth_error wheel3 i = Some r
    /\ spin_wheel (mkWorld wheel3 (fun _ => 1 # 2) 0)
       = (Ok (Some (name r)), mkWorld wheel3 (fun _ => 1 # 2) 1).
Proof.
  apply (proj1 (proj2
    (spin_wheel_selects_one (mkWorld wheel3 (fun _ => 1 # 2) 0)))).
  simpl. discriminate.
Defined.





(** C9.  Permuting a list of positive total weight leaves the sweep of every
    option as it was: wherever an option stands in the two lists, the
    segments drawn for it sweep the same angle, [weight / total * 360] (the
    total is the same for both lists, and every option of one list stands
    somewhere in the other). *)
Theorem sweep_order_stable (restaurants restaurants' : list restaurant)
  (rotation rotation' : Q) (hl hl' : option Z) :
  Permutation restaurants restaurants' ->
  (0 < total_probability restaurants)%Z ->
  exists segs segs',
    generate_wheel_svg restaurants rotation hl = Ok (Wheel rotation segs)
    /\ generate_wheel_svg restaurants' rotation' hl'
       = Ok (Wheel rotation' segs')
    /\ total_probability restaurants' = total_probability restaurants
    /\ (forall i r, nth_error restaurants i = Some r ->
        exists j, nth_error restaurants' j = Some r)
    /\ forall i j r,
         nth_error restaurants i = Some r ->
         nth_error restaurants' j = Some r ->
         exists s s',
           nth_error segs i = Some s /\ nth_error segs' j = Some s'
           /\ angle s' == angle s
           /\ angle s' == inject_Z (probability r)
                          / inject_Z (total_probability restaurants) * 360.
Proof.
  intros Hp Hpos.
  assert (Etot : total_probability restaurants' = total_probability restaurants).
  { unfold total_probability. symmetry. apply sum_permutation.
    apply Permutation_map. exact Hp. }
  assert (Ht : total_probability restaurants <> 0%Z) by lia.
  assert (Ht' : total_probability restaurants' <> 0%Z) by lia.
  destruct (generate_wheel_svg_spec restaurants rotation hl Ht)
    as (segs & E & _ & _ & Hs).
  destruct (generate_wheel_svg_spec restaurants' rotation' hl' Ht')
    as (segs' & E' & _ & _ & Hs').
  exists segs, segs'. split; [exact E|]. split; [exact E'|].
  split; [exact Etot|]. split.
  - intros i r Hr. apply nth_error_In in Hr.
    apply (Permutation_in _ Hp) in Hr.
    apply In_nth_error in Hr. exact Hr.
  - intros i j r Hi Hj.
    destruct (Hs i r Hi) as (s & _ & H1 & _ & H3 & _).
    destruct (Hs' j r Hj) as (s' & _ & H1' & _ & H3' & _).
    exists s, s'. split; [exact H1|]. split; [exact H1'|].
    rewrite H3', H3, Etot. split; reflexivity.
Qed.

Lemma sweep_order_stable_witness :
  exists segs segs',
    generate_wheel_svg wheel3 0 None = Ok (Wheel 0 segs)
    /\ generate_wheel_svg (rev wheel3) 0 None = Ok (Wheel 0 segs')
    /\ forall i j r,
         nth_error wheel3 i = Some r ->
         nth_error (rev wheel3) j = Some r ->
         exists s s',
           nth_error segs i = Some s /\ nth_error segs' j = Some s'
           /\ angle s' == angle s.
Proof.
  destruct (sweep_order_stable wheel3 (rev wheel3) 0 0 None None)
    as (segs & segs' & E & E' & _ & _ & H).
  - apply Permutation_rev.
  - reflexivity.
  - exists segs, segs'. split; [exact E|]. split; [exact E'|].
    intros i j r Hi Hj. destruct (H i j r Hi Hj) as (s & s' & H1 & H2 & H3 & _).
    exists s, s'. split; [exact H1|]. split; [exact H2 | exact H3].
Defined.



(** C6.  The ease-out schedule [rotation(frame) = (1 - (1 - frame/60)^3) *
    target] starts at 0 on the first frame and never decreases over the
    sixty frames, for every target that is not negative; and the targets of
    the animation are of that kind: for weights that are not negative and
    sum to more than zero the target is at least 1800, the animation raises
    nothing and the rotations it shows, the final position included, are
    those of the schedule, in non-decreasing order. *)
Theorem ease_out_schedule_monotone :
  (forall target : Q,
     0 <= target ->
     rotation_at target 0 == 0
     /\ forall i j, (i <= j < frames)%nat ->
                    rotation_at target i <= rotation_at target j)
  /\ (forall (restaurants : list restaurant) (winner_idx : nat),
        Forall (fun r => 0 <= probability r)%Z restaurants ->
        (0 < total_probability restaurants)%Z ->
        exists target ms,
          target_rotation restaurants winner_idx = Ok target
          /\ 1800 <= target
          /\ spin_animation restaurants winner_idx = Ok ms
          /\ map rotation_of ms
             = map (fun frame => Some (rotation_at target frame))
                 (seq 0 frames ++ [(frames - 1)%nat])
          /\ forall i j ri rj,
               (i <= j)%nat ->
               nth_error (map rotation_of ms) i = Some (Some ri) ->
               nth_error (map rotation_of ms) j = Some (Some rj) ->
               ri <= rj).
Proof.
  split.
  - intros target Ht. split; [apply rotation_at_first|].
    intros i j Hij. apply rotation_at_monotone; [exact Ht | lia].
  - intros restaurants winner_idx Hw Hpos.
    assert (Ht : total_probability restaurants <> 0%Z) by lia.
    destruct (target_rotation_lower_bound restaurants winner_idx Hw Hpos)
      as (target & Et & Hb).
    destruct (spin_animation_spec restaurants winner_idx
                (total_probability_nonempty _ Ht) Ht)
      as (target' & segs & segs' & Et' & _ & _ & Ea).
    assert (target' = target) by congruence. subst target'.
    assert (Em : map rotation_of
                   (map (fun frame => Wheel (rotation_at target frame) segs)
                      (seq 0 frames)
                    ++ [Wheel (rotation_at target (frames - 1)) segs'])
                 = map (fun frame => Some (rotation_at target frame))
                     (seq 0 frames ++ [(frames - 1)%nat])).
    { rewrite !map_app, map_map. reflexivity. }
    eexists. eexists. split; [exact Et|]. split; [exact Hb|].
    split; [exact Ea|]. split; [exact Em|].
    intros i j ri rj Hij Hi Hj. rewrite Em in Hi, Hj.
    rewrite nth_error_map in Hi, Hj.
    destruct (nth_error (seq 0 frames ++ [(frames - 1)%nat]) i) as [fi|] eqn:Ei;
      [|discriminate].
    destruct (nth_error (seq 0 frames ++ [(frames - 1)%nat]) j) as [fj|] eqn:Ej;
      [|discriminate].
    simpl in Hi, Hj. injection Hi as <-. injection Hj as <-.
    apply shown_frame in Ei, Ej. subst fi fj.
    apply rotation_at_monotone; [lra|]. unfold frames. lia.
Qed.

Lemma ease_out_schedule_monotone_witness :
  (rotation_at 1836 0 == 0 /\ rotation_at 1836 58 <= rotation_at 1836 59)
  /\ exists target ms,
       target_rotation wheel3 0 = Ok target
       /\ 1800 <= target
       /\ spin_animation wheel3 0 = Ok ms.
Proof.
  split.
  - destruct (proj1 ease_out_schedule_monotone 1836) as (H0 & Hm).
    + unfold Qle. simpl. lia.
    + split; [exact H0|]. apply Hm. unfold frames. lia.
  - destruct (proj2 ease_out_schedule_monotone wheel3 0%nat)
      as (target & ms & Et & Hb & Ea & _).
    + repeat constructor; simpl; lia.
    + reflexivity.
    + exists target, ms. split; [exact Et|]. split; [exact Hb | exact Ea].
Defined.

(** C2.  The rotation of the last frame is not the target: for the options
    A:10, B:10, C:80 and the winner A the target expression is 1836 degrees,
    and frame 59, the last of the sixty, is drawn at 1836 - 1836/216000 =
    1835.9915 degrees, as is the final highlighted position. *)
Theorem last_frame_short_of_target :
  exists target ms rotation segs segs',
    target_rotation wheel3 0 = Ok target
    /\ spin_animation wheel3 0 = Ok ms
    /\ List.length ms = S frames
    /\ nth_error ms (frames - 1) = Some (Wheel rotation segs)
    /\ nth_error ms frames = Some (Wheel rotation segs')
    /\ target == 1836
    /\ rotation == 18359915 # 10000
    /\ rotation < target.
Proof.
  destruct (last_frame_falls_short wheel3 0)
    as (target & ms & segs & segs' & Et & Ea & H59 & H60 & Hl & Hr).
  { discriminate. }
  exists target, ms, (rotation_at target (frames - 1)), segs, segs'.
  assert (E : target == 1836).
  { vm_compute in Et. injection Et as <-. reflexivity. }
  split; [exact Et|]. split; [exact Ea|]. split; [exact Hl|].
  split; [exact H59|]. split; [exact H60|]. split; [exact E|].
  rewrite Hr, E. split; reflexivity.
Qed.

(** C1.  The final rotation does not place the centre of the winner's
    segment under the pointer.  For the options A:10, B:10, C:80 and the
    winner A, whose segment runs from 0 to 36 degrees with its centre at 18,
    the final, highlighted position is drawn at 1835.9915 degrees: the
    pointer then rests on the point drawn at 324.0085 degrees, inside the
    segment of C.  Were the drawing turned the other way the pointer would
    rest at 35.9915 degrees, by the trailing edge of A; and the target
    expression itself, 1836 degrees, leaves the pointer at 324 degrees. *)
Theorem final_rotation_misses_winner_center :
  exists ms rotation a b c,
    winner_index wheel3 (Some "A"%string) = 0%nat
    /\ spin_animation wheel3 0 = Ok ms
    /\ nth_error ms frames = Some (Wheel rotation [a; b; c])
    /\ color a = gold
    /\ current_angle a == 0 /\ angle a == 36 /\ center a == 18
    /\ current_angle c == 72 /\ angle c == 288
    /\ rotation == 18359915 # 10000
    /\ under_pointer rotation == 3240085 # 10000
    /\ ~ under_pointer rotation == center a
    /\ ~ (current_angle a <= under_pointer rotation
          <= current_angle a + angle a)
    /\ (current_angle c < under_pointer rotation < current_angle c + angle c)
    /\ mod360 rotation == 359915 # 10000
    /\ ~ mod360 rotation == center a
    /\ under_pointer 1836 == 324.
Proof.
  do 5 eexists.
  split; [reflexivity|].
  split; [vm_compute; reflexivity|].
  split; [vm_compute; reflexivity|].
  repeat split; try reflexivity; try discriminate.
  intros [H1 H2]. revert H2. vm_compute. intro H. apply H. reflexivity.
Qed.


(** * Further properties *)

(** ** The selection *)

Lemma sum_firstn_monotone (ws : list Z) :
  Forall (fun w => 0 <= w)%Z ws ->
  forall i j, (i <= j)%nat -> (sum (firstn i ws) <= sum (firstn j ws))%Z.
Proof.
  induction 1 as [|w ws Hw Hws IH]; intros i j Hij.
  - rewrite !firstn_nil. lia.
  - destruct i as [|i]; destruct j as [|j]; try lia.
    + simpl firstn. rewrite sum_nil, sum_cons.
      assert (0 <= sum (firstn j ws))%Z.
      { apply sum_nonneg.
        rewrite <- (firstn_skipn j ws) in Hws. apply Forall_app in Hws.
        apply Hws. }
      lia.
    + simpl firstn. rewrite !sum_cons. specialize (IH i j). lia.
Qed.



(** ** The drawing *)





Lemma draw_segment_well_drawn (total_prob : Z) (hl : option Z) (idx : nat)
  (c : Q) (r : restaurant) (s : segment) :
  draw_segment total_prob hl idx c r = Ok s -> well_drawn s.
Proof.
  unfold draw_segment.
  destruct (true_div (probability r) total_prob) as [share|e]; [|discriminate].
  cbn [bind].
  destruct (getitem colors (idx mod List.length colors)) as [col|e];
    [|discriminate].
  cbn [bind]. intro E. injection E as <-. repeat split.
Qed.

Lemma draw_segments_well_drawn (total_prob : Z) (hl : option Z)
  (rs : list restaurant) :
  forall (idx : nat) (c : Q) (segs : list segment),
    draw_segments total_prob hl idx c rs = Ok segs -> Forall well_drawn segs.
Proof.
  induction rs as [|r rs IH]; intros idx c segs E.
  - simpl in E. injection E as <-. constructor.
  - cbn [draw_segments] in E.
    destruct (draw_segment total_prob hl idx c r) as [s|e] eqn:Es;
      [|discriminate].
    cbn [bind] in E.
    destruct (draw_segments total_prob hl (S idx) (c + angle s) rs)
      as [ss|e] eqn:Ess; [|discriminate].
    cbn [bind] in E. injection E as <-.
    constructor; [apply (draw_segment_well_drawn _ _ _ _ _ _ Es)|].
    apply (IH _ _ _ Ess).
Qed.

Lemma generate_wheel_svg_well_drawn (restaurants : list restaurant)
  (rotation : Q) (hl : option Z) (segs : list segment) :
  generate_wheel_svg restaurants rotation hl = Ok (Wheel rotation segs) ->
  Forall well_drawn segs.
Proof.
  unfold generate_wheel_svg. destruct restaurants as [|r rs]; [discriminate|].
  destruct (draw_segments (total_probability (r :: rs)) hl 0 0 (r :: rs))
    as [ss|e] eqn:E; [|discriminate].
  cbn [bind]. intro H. injection H as <-.
  apply (draw_segments_well_drawn _ _ _ _ _ _ E).
Qed.

(** A sweep is more than half a turn when the weight is more than half the
    total. *)
Lemma sweep_over_half (w t : Z) :
  (0 < t)%Z -> (180 < inject_Z w / inject_Z t * 360 <-> (t < 2 * w)%Z).
Proof.
  intro Ht.
  assert (Hq : 0 < inject_Z t) by (rewrite Zlt_Qlt in Ht; exact Ht).
  assert (E : inject_Z w / inject_Z t * 360 - 180
              == (inject_Z (2 * w) - inject_Z t) * (180 / inject_Z t)).
  { rewrite inject_Z_mult. change (inject_Z 2) with 2. field. lra. }
  assert (Hpos : 0 < 180 / inject_Z t).
  { apply Qlt_shift_div_l; [exact Hq | lra]. }
  rewrite Zlt_Qlt. split; intro H.
  - assert (H1 : 0 < (inject_Z (2 * w) - inject_Z t) * (180 / inject_Z t))
      by (rewrite <- E; lra).
    destruct (Qlt_le_dec (inject_Z t) (inject_Z (2 * w))) as [Hlt|Hge];
      [exact Hlt|].
    exfalso.
    assert (H2 : 0 <= (inject_Z t - inject_Z (2 * w)) * (180 / inject_Z t))
      by (apply Qmult_le_0_compat; lra).
    lra.
  - assert (H1 : 0 < (inject_Z (2 * w) - inject_Z t) * (180 / inject_Z t))
      by (apply Qmult_lt_0_compat; lra).
    rewrite <- E in H1. lra.
Qed.

Lemma two_items_le_sum (ws : list Z) (i j : nat) (a b : Z) :
  Forall (fun w => 0 <= w)%Z ws ->
  nth_error ws i = Some a -> nth_error ws j = Some b -> (i < j)%nat ->
  (a + b <= sum ws)%Z.
Proof.
  intros Hnn Hi Hj Hij.
  pose proof (sum_firstn_succ ws i a Hi) as Ei.
  pose proof (sum_firstn_succ ws j b Hj) as Ej.
  pose proof (sum_firstn_monotone ws Hnn (S i) j Hij) as Hm.
  pose proof (sum_firstn_le (S j) ws Hnn) as Hle.
  assert (0 <= sum (firstn i ws))%Z.
  { apply sum_nonneg. rewrite <- (firstn_skipn i ws) in Hnn.
    apply Forall_app in Hnn. apply Hnn. }
  lia.
Qed.

(** X3.  For weights that are not negative and sum to more than zero, the
    arc flag of a segment is 1 when its weight is more than half the total
    and 0 otherwise; at most one segment of a wheel has the flag 1. *)
Theorem large_arc_majority (restaurants : list restaurant) (rotation : Q)
  (hl : option Z) :
  Forall (fun r => 0 <= probability r)%Z restaurants ->
  (0 < total_probability restaurants)%Z ->
  exists segs,
    generate_wheel_svg restaurants rotation hl = Ok (Wheel rotation segs)
    /\ (forall i r s,
          nth_error restaurants i = Some r -> nth_error segs i = Some s ->
          (large_arc s = 1%Z
           /\ (total_probability restaurants < 2 * probability r)%Z)
          \/ (large_arc s = 0%Z
              /\ (2 * probability r <= total_probability restaurants)%Z))
    /\ (forall i j s s',
          nth_error segs i = Some s -> nth_error segs j = Some s' ->
          large_arc s = 1%Z -> large_arc s' = 1%Z -> i = j).
Proof.
  intros Hnn Hpos.
  assert (Ht : total_probability restaurants <> 0%Z) by lia.
  destruct (generate_wheel_svg_spec restaurants rotation hl Ht)
    as (segs & E & Hl & _ & Hs).
  pose proof (generate_wheel_svg_well_drawn _ _ _ _ E) as Hwd.
  assert (Hflag : forall i r s,
            nth_error restaurants i = Some r -> nth_error segs i = Some s ->
            (large_arc s = 1%Z
             /\ (total_probability restaurants < 2 * probability r)%Z)
            \/ (large_arc s = 0%Z
                /\ (2 * probability r <= total_probability restaurants)%Z)).
  { intros i r s Hr Hsg.
    destruct (Hs i r Hr) as (s1 & _ & H1 & _ & H3 & _).
    rewrite H1 in Hsg. injection Hsg as <-.
    assert (Hw : well_drawn s1).
    { exact (proj1 (Forall_forall _ _) Hwd s1 (nth_error_In _ _ H1)). }
    destruct Hw as (Hla & _). rewrite Hla.
    destruct (Qlt_le_dec 180 (angle s1)) as [Hbig|Hsmall].
    - left. split; [reflexivity|]. rewrite H3 in Hbig.
      apply (sweep_over_half _ _ Hpos). exact Hbig.
    - right. split; [reflexivity|].
      destruct (Z_lt_le_dec (total_probability restaurants)
                  (2 * probability r)) as [Hlt|Hle]; [|exact Hle].
      exfalso. apply (sweep_over_half _ _ Hpos) in Hlt.
      rewrite <- H3 in Hlt. lra. }
  exists segs. split; [exact E|]. split; [exact Hflag|].
  assert (Hget : forall i s, nth_error segs i = Some s ->
             exists r, nth_error restaurants i = Some r).
  { intros i s Hi.
    destruct (nth_error restaurants i) as [r|] eqn:Er; [exists r; reflexivity|].
    apply nth_error_None in Er.
    assert (nth_error segs i <> None) by congruence.
    apply nth_error_Some in H. lia. }
  assert (Hpair : forall i j s s',
            (i < j)%nat ->
            nth_error segs i = Some s -> nth_error segs j = Some s' ->
            large_arc s = 1%Z -> large_arc s' = 1%Z -> False).
  { intros i j s s' Hij Hi Hj L1 L2.
    destruct (Hget i s Hi) as (r & Er). destruct (Hget j s' Hj) as (r' & Er').
    destruct (Hflag i r s Er Hi) as [(_ & Hb)|(Hz & _)]; [|congruence].
    destruct (Hflag j r' s' Er' Hj) as [(_ & Hb')|(Hz & _)]; [|congruence].
    assert (probability r + probability r' <= total_probability restaurants)%Z.
    { apply (two_items_le_sum (map probability restaurants) i j).
      - apply Forall_map. exact Hnn.
      - rewrite nth_error_map, Er. reflexivity.
      - rewrite nth_error_map, Er'. reflexivity.
      - exact Hij. }
    lia. }
  intros i j s s' Hi Hj L1 L2.
  destruct (Nat.lt_trichotomy i j) as [Hlt|[Heq|Hgt]]; [|exact Heq|].
  - exfalso. apply (Hpair i j s s' Hlt Hi Hj L1 L2).
  - exfalso. apply (Hpair j i s' s Hgt Hj Hi L2 L1).
Qed.

Lemma large_arc_majority_witness :
  exists segs,
    generate_wheel_svg wheel3 0 None = Ok (Wheel 0 segs)
    /\ forall i j s s',
         nth_error segs i = Some s -> nth_error segs j = Some s' ->
         large_arc s = 1%Z -> large_arc s' = 1%Z -> i = j.
Proof.
  destruct (large_arc_majority wheel3 0 None) as (segs & E & _ & H).
  - repeat constructor; simpl; lia.
  - reflexivity.
  - exists segs. split; [exact E | exact H].
Defined.

Lemma sum_firstn_nonneg (n : nat) (ws : list Z) :
  Forall (fun w => 0 <= w)%Z ws -> (0 <= sum (firstn n ws))%Z.
Proof.
  intro H. apply sum_nonneg.
  rewrite <- (firstn_skipn n ws) in H. apply Forall_app in H. apply H.
Qed.

Lemma share_bounds (a t : Z) :
  (0 <= a <= t)%Z -> (0 < t)%Z ->
  0 <= inject_Z a / inject_Z t * 360 <= 360.
Proof.
  intros [Ha Hat] Ht.
  assert (Hq : 0 < inject_Z t) by (rewrite Zlt_Qlt in Ht; exact Ht).
  assert (H0 : 0 <= inject_Z a) by (rewrite Zle_Qle in Ha; exact Ha).
  assert (H1 : inject_Z a <= inject_Z t) by (rewrite Zle_Qle in Hat; exact Hat).
  assert (L : 0 <= inject_Z a / inject_Z t).
  { apply Qle_shift_div_l; [exact Hq | lra]. }
  assert (U : inject_Z a / inject_Z t <= 1).
  { apply Qle_shift_div_r; [exact Hq | lra]. }
  split; lra.
Qed.



(** X5.  [generate_wheel_svg] raises nothing but [ZeroDivisionError], and it
    raises it exactly on the lists that are not empty and whose weights sum
    to zero. *)
Theorem render_raises_only_on_zero_total (restaurants : list restaurant)
  (rotation : Q) (hl : option Z) (e : exn) :
  generate_wheel_svg restaurants rotation hl = Raise e
  <-> (e = ZeroDivisionError /\ restaurants <> []
       /\ total_probability restaurants = 0%Z).
Proof.
  split.
  - intro H. destruct restaurants as [|r rs]; [discriminate|].
    destruct (Z.eq_dec (total_probability (r :: rs)) 0) as [Hz|Hnz].
    + rewrite generate_wheel_svg_zero_total in H by (discriminate || exact Hz).
      injection H as <-. split; [reflexivity|]. split; [discriminate | exact Hz].
    + destruct (generate_wheel_svg_spec (r :: rs) rotation hl Hnz)
        as (segs & E & _). rewrite E in H. discriminate.
  - intros (-> & Hne & Hz). apply generate_wheel_svg_zero_total; assumption.
Qed.

(** X6.  The spin animation raises nothing but [ZeroDivisionError], exactly
    when the weights sum to zero, and then before anything is drawn;
    otherwise it draws sixty-one wheels. *)
Theorem animation_raises_only_on_zero_total (restaurants : list restaurant)
  (winner_idx : nat) :
  (forall e, spin_animation restaurants winner_idx = Raise e
             <-> (e = ZeroDivisionError
                  /\ total_probability restaurants = 0%Z))
  /\ (total_probability restaurants = 0%Z ->
      frame_rotation restaurants winner_idx 0 = Raise ZeroDivisionError)
  /\ (total_probability restaurants <> 0%Z ->
      exists ms, spin_animation restaurants winner_idx = Ok ms
                 /\ List.length ms = 61%nat).
Proof.
  assert (Hz : total_probability restaurants = 0%Z ->
               spin_animation restaurants winner_idx = Raise ZeroDivisionError).
  { intro Hz. unfold spin_animation.
    change (seq 0 frames) with (0%nat :: seq 1 59).
    cbn [animation_loop]. unfold frame_rotation.
    rewrite (target_rotation_zero_total _ _ Hz). reflexivity. }
  assert (Hnz : total_probability restaurants <> 0%Z ->
      exists ms, spin_animation restaurants winner_idx = Ok ms
                 /\ List.length ms = 61%nat).
  { intro Ht.
    destruct (last_frame_falls_short restaurants winner_idx Ht)
      as (target & ms & _ & _ & _ & Ea & _ & _ & Hl & _).
    exists ms. split; [exact Ea | exact Hl]. }
  split; [|split; [|exact Hnz]].
  - intro e. split.
    + intro H.
      destruct (Z.eq_dec (total_probability restaurants) 0) as [E0|E1].
      * rewrite (Hz E0) in H. injection H as <-. split; [reflexivity | exact E0].
      * destruct (Hnz E1) as (ms & Ea & _). rewrite Ea in H. discriminate.
    + intros (-> & E0). apply Hz. exact E0.
  - intro E0. unfold frame_rotation.
    rewrite (target_rotation_zero_total _ _ E0). reflexivity.
Qed.

Lemma animation_raises_only_on_zero_total_witness :
  frame_rotation zero_wheel 0 0 = Raise ZeroDivisionError
  /\ exists ms, spin_animation wheel3 0 = Ok ms /\ List.length ms = 61%nat.
Proof.
  split.
  - apply (proj1 (proj2 (animation_raises_only_on_zero_total zero_wheel 0))).
    reflexivity.
  - apply (proj2 (proj2 (animation_raises_only_on_zero_total wheel3 0))).
    discriminate.
Defined.

(** ** The winner and the animation *)

Lemma find_named_none (rs : list restaurant) (idx : nat) :
  find_named None idx rs = None.
Proof.
  revert idx. induction rs as [|r rs IH]; intro idx; simpl; [|apply IH];
    reflexivity.
Qed.

Lemma find_named_some (chosen : string) (rs : list restaurant) :
  forall idx j,
    find_named (Some chosen) idx rs = Some j ->
    (idx <= j)%nat
    /\ (exists r, nth_error rs (j - idx) = Some r /\ name r = chosen)
    /\ forall k r', (k < j - idx)%nat -> nth_error rs k = Some r' ->
                    name r' <> chosen.
Proof.
  induction rs as [|r rs IH]; intros idx j H; [discriminate|].
  simpl in H. destruct (String.eqb_spec (name r) chosen) as [Heq|Hneq].
  - injection H as <-. rewrite Nat.sub_diag.
    split; [lia|]. split; [exists r; split; [reflexivity | exact Heq]|].
    intros k r' Hk. lia.
  - destruct (IH (S idx) j H) as (Hle & (r1 & Hr1 & Hn1) & Hfirst).
    split; [lia|]. split.
    + exists r1. replace (j - idx)%nat with (S (j - S idx)) by lia.
      split; [exact Hr1 | exact Hn1].
    + intros k r' Hk Hr'. destruct k as [|k].
      * simpl in Hr'. injection Hr' as <-. exact Hneq.
      * simpl in Hr'. apply (Hfirst k r'); [lia | exact Hr'].
Qed.

Lemma find_named_missing (chosen : string) (rs : list restaurant) :
  forall idx,
    find_named (Some chosen) idx rs = None -> ~ In chosen (map name rs).
Proof.
  induction rs as [|r rs IH]; intros idx H Hin; [exact Hin|].
  simpl in H. destruct (String.eqb_spec (name r) chosen) as [Heq|Hneq];
    [discriminate|].
  destruct Hin as [Hin|Hin]; [contradiction|]. apply (IH (S idx) H Hin).
Qed.

(** X7.  The winner's position of line 147 is the first position whose
    restaurant bears the stored result; it is position 0 when the result is
    [None] or is the name of no restaurant; on a list that is not empty it
    is always a position of the list. *)
Theorem winner_index_first_match (restaurants : list restaurant)
  (final_result : option string) :
  (forall chosen,
     final_result = Some chosen -> In chosen (map name restaurants) ->
     exists r,
       nth_error restaurants (winner_index restaurants final_result) = Some r
       /\ name r = chosen
       /\ forall k r', (k < winner_index restaurants final_result)%nat ->
                       nth_error restaurants k = Some r' ->
                       name r' <> chosen)
  /\ ((final_result = None
       \/ exists chosen, final_result = Some chosen
                         /\ ~ In chosen (map name restaurants)) ->
      winner_index restaurants final_result = 0%nat)
  /\ (restaurants <> [] ->
      (winner_index restaurants final_result < List.length restaurants)%nat).
Proof.
  split; [|split].
  - intros chosen -> Hin. unfold winner_index.
    destruct (find_named (Some chosen) 0 restaurants) as [j|] eqn:E.
    + destruct (find_named_some _ _ _ _ E) as (_ & (r & Hr & Hn) & Hfirst).
      rewrite Nat.sub_0_r in Hr, Hfirst.
      exists r. split; [exact Hr|]. split; [exact Hn | exact Hfirst].
    + exfalso. apply (find_named_missing _ _ _ E Hin).
  - intros [-> | (chosen & -> & Hnot)]; unfold winner_index.
    + rewrite find_named_none. reflexivity.
    + destruct (find_named (Some chosen) 0 restaurants) as [j|] eqn:E;
        [|reflexivity].
      exfalso. destruct (find_named_some _ _ _ _ E) as (_ & (r & Hr & Hn) & _).
      apply Hnot. rewrite <- Hn. apply in_map.
      apply (nth_error_In _ _ Hr).
  - intro Hne. unfold winner_index.
    destruct final_result as [chosen|].
    + destruct (find_named (Some chosen) 0 restaurants) as [j|] eqn:E.
      * destruct (find_named_some _ _ _ _ E) as (_ & (r & Hr & _) & _).
        rewrite Nat.sub_0_r in Hr. apply nth_error_Some. congruence.
      * destruct restaurants; [contradiction | simpl; lia].
    + rewrite find_named_none.
      destruct restaurants; [contradiction | simpl; lia].
Qed.

Lemma winner_index_first_match_witness :
  exists r,
    nth_error wheel3 (winner_index wheel3 (Some "B"%string)) = Some r
    /\ name r = "B"%string.
Proof.
  destruct (proj1 (winner_index_first_match wheel3 (Some "B"%string))
              "B"%string) as (r & Hr & Hn & _).
  - reflexivity.
  - simpl. right. left. reflexivity.
  - exists r. split; [exact Hr | exact Hn].
Defined.



Lemma eased_progress_below_one (frame : nat) :
  (frame < frames)%nat -> eased_progress frame < 1.
Proof.
  intro H.
  apply Qle_lt_trans with (eased_progress (frames - 1)).
  - apply eased_progress_monotone. unfold frames in *. lia.
  - rewrite eased_progress_last. reflexivity.
Qed.

(** X9.  For weights that are not negative and sum to more than zero, the
    target of the animation is at least five turns and at most six (1800 to
    2160 degrees), six turns exactly when the winner is the last
    restaurant; every frame is drawn at a rotation from 0 up to, but not
    reaching, the target. *)
Theorem target_rotation_bounds (restaurants : list restaurant)
  (winner_idx : nat) :
  Forall (fun r => 0 <= probability r)%Z restaurants ->
  (0 < total_probability restaurants)%Z ->
  exists target,
    target_rotation restaurants winner_idx = Ok target
    /\ 1800 <= target <= 2160
    /\ ((List.length restaurants <= winner_idx + 1)%nat -> target == 2160)
    /\ forall frame, (frame < frames)%nat ->
         frame_rotation restaurants winner_idx frame
         = Ok (rotation_at target frame)
         /\ 0 <= rotation_at target frame < target.
Proof.
  intros Hnn Hpos.
  assert (Ht : total_probability restaurants <> 0%Z) by lia.
  pose proof (inject_Z_nonzero _ Ht) as Hq.
  assert (Hnnw : Forall (fun w => 0 <= w)%Z (map probability restaurants))
    by (apply Forall_map; exact Hnn).
  set (S1 := sum (map probability (firstn (winner_idx + 1) restaurants))).
  assert (HS : (0 <= S1 <= total_probability restaurants)%Z).
  { unfold S1. rewrite <- firstn_map. split.
    - apply sum_firstn_nonneg. exact Hnnw.
    - apply sum_firstn_le. exact Hnnw. }
  pose proof (share_bounds S1 _ HS Hpos) as Hb.
  assert (Eshare : inject_Z (360 * S1) / inject_Z (total_probability restaurants)
                   == inject_Z S1 / inject_Z (total_probability restaurants) * 360).
  { rewrite inject_Z_mult. change (inject_Z 360) with 360. field. exact Hq. }
  eexists. split; [apply target_rotation_ok; exact Ht|].
  fold S1. change (inject_Z (360 * spins)) with 1800.
  assert (Hrange : 1800 <= 1800 + inject_Z (360 * S1)
                                  / inject_Z (total_probability restaurants)
                   <= 2160).
  { rewrite Eshare. split; lra. }
  split; [exact Hrange|]. split.
  - intro Hlast. rewrite Eshare. unfold S1.
    rewrite firstn_all2 by exact Hlast.
    fold (total_probability restaurants). field. exact Hq.
  - intros frame Hf. split.
    + unfold frame_rotation. rewrite (target_rotation_ok _ _ Ht). reflexivity.
    + unfold rotation_at.
      pose proof (eased_progress_nonneg frame) as H0.
      pose proof (eased_progress_below_one frame Hf) as H1.
      assert (0 <= eased_progress frame) by (apply H0; lia).
      set (t := 1800 + inject_Z (360 * S1)
                       / inject_Z (total_probability restaurants)) in *.
      assert (0 < t) by lra.
      split.
      * apply Qmult_le_0_compat; lra.
      * assert (0 < (1 - eased_progress frame) * t)
          by (apply Qmult_lt_0_compat; lra).
        lra.
Qed.

Lemma target_rotation_bounds_witness :
  exists target,
    target_rotation wheel3 2 = Ok target /\ 1800 <= target <= 2160.
Proof.
  destruct (target_rotation_bounds wheel3 2) as (target & E & H & _).
  - repeat constructor; simpl; lia.
  - reflexivity.
  - exists target. split; [exact E | exact H].
Defined.

(** X10.  When the weights do not sum to zero the animation draws the sixty
    frames with the segments of the drawing without highlight, none of them
    gold, and then the final position with the same segments, the one at
    the winner's position filled with gold and every other one as it
    was. *)
Theorem animation_highlights_last (restaurants : list restaurant)
  (winner_idx : nat) :
  total_probability restaurants <> 0%Z ->
  exists ms plain final,
    spin_animation restaurants winner_idx = Ok ms
    /\ (forall k, (k < frames)%nat ->
          exists rotation, nth_error ms k = Some (Wheel rotation plain))
    /\ (exists rotation, nth_error ms frames = Some (Wheel rotation final))
    /\ List.length ms = S frames
    /\ Forall (fun p => color p <> gold) plain
    /\ List.length final = List.length plain
    /\ forall i p, nth_error plain i = Some p ->
         nth_error final i
         = Some (if (i =? winner_idx)%nat then with_color gold p else p).
Proof.
  intro Ht.
  destruct (spin_animation_spec restaurants winner_idx
              (total_probability_nonempty _ Ht) Ht)
    as (target & plain & final & Et & Eg & Eg' & Ea).
  pose proof (generate_wheel_svg_paint restaurants 0
                (Some (Z.of_nat winner_idx)) plain (Eg 0)) as Ep.
  rewrite (Eg' 0) in Ep. injection Ep as ->.
  destruct (generate_wheel_svg_spec restaurants 0 None Ht)
    as (plain' & E0 & Hl0 & _ & Hs0).
  rewrite (Eg 0) in E0. injection E0 as <-.
  eexists. exists plain, (paint (Some (Z.of_nat winner_idx)) 0 plain).
  split; [exact Ea|]. split; [|split; [|split; [|split; [|split]]]].
  - intros k Hk. exists (rotation_at target k).
    rewrite nth_error_app1 by (rewrite length_map, length_seq; exact Hk).
    rewrite nth_error_map, nth_error_seq.
    destruct (Nat.ltb_spec k frames) as [_|Hc]; [reflexivity | lia].
  - exists (rotation_at target (frames - 1)).
    rewrite nth_error_app2 by (rewrite length_map, length_seq; lia).
    rewrite length_map, length_seq, Nat.sub_diag. reflexivity.
  - rewrite length_app, length_map, length_seq. reflexivity.
  - apply Forall_forall. intros p Hp Hgold.
    apply In_nth_error in Hp. destruct Hp as (i & Hi).
    destruct (nth_error restaurants i) as [r|] eqn:Er.
    + destruct (Hs0 i r Er) as (p' & col & P1 & P2 & _ & _ & _ & _ & P7 & _).
      rewrite P1 in Hi. injection Hi as <-. simpl in P7.
      apply gold_not_in_palette. rewrite <- Hgold, P7.
      apply (nth_error_In _ _ P2).
    + apply nth_error_None in Er.
      assert (nth_error plain i <> None) by congruence.
      apply nth_error_Some in H. lia.
  - apply paint_length.
  - intros i p Hi. rewrite nth_error_paint, Hi. simpl.
    destruct (Z.eqb_spec (Z.of_nat winner_idx) (Z.of_nat i)) as [He|Hn];
      destruct (Nat.eqb_spec i winner_idx) as [He'|Hn']; try reflexivity; lia.
Qed.

Lemma animation_highlights_last_witness :
  exists ms plain final,
    spin_animation wheel3 1 = Ok ms
    /\ (exists rotation, nth_error ms frames = Some (Wheel rotation final))
    /\ Forall (fun p => color p <> gold) plain
    /\ forall i p, nth_error plain i = Some p ->
         nth_error final i
         = Some (if (i =? 1)%nat then with_color gold p else p).
Proof.
  destruct (animation_highlights_last wheel3 1)
    as (ms & plain & final & E & _ & H1 & _ & H2 & _ & H3).
  - discriminate.
  - exists ms, plain, final. repeat split; assumption.
Defined.

(** ** The script *)

Lemma choices_keeps_list {A : Type} (population : list A) (weights : list Q)
  (w : world) :
  restaurants_obj (snd (choices population weights w)) = restaurants_obj w.
Proof.
  unfold choices.
  destruct (negb (List.length (accumulate weights) =? List.length population)%nat);
    [reflexivity|].
  destruct (last_item (accumulate weights)) as [total|e]; [|reflexivity].
  destruct (Qle_bool total 0); reflexivity.
Qed.

Lemma spin_wheel_keeps_list (w : world) :
  restaurants_obj (snd (spin_wheel w)) = restaurants_obj w.
Proof.
  unfold spin_wheel. destruct (restaurants_obj w) as [|r rs] eqn:E.
  - exact E.
  - destruct (normalize (map probability (r :: rs))) as [ps|e]; [|exact E].
    pose proof (choices_keeps_list (map name (r :: rs)) ps w) as H.
    destruct (choices (map name (r :: rs)) ps w) as [res w']. simpl in *.
    rewrite H. exact E.
Qed.

(** The wheel section reads the list and the file and leaves both, and the
    sign-in, as they were. *)
Lemma main_section_keeps (ui : widgets) (s : app_state) :
  let s' := snd (main_section ui s) in
  data_file s' = data_file s /\ saves s' = saves s
  /\ restaurants_obj (mem s') = restaurants_obj (mem s)
  /\ ss_authenticated (session s') = ss_authenticated (session s).
Proof.
  unfold main_section.
  destruct (restaurants_obj (mem s)) as [|r rs] eqn:El.
  - simpl. repeat split. exact El.
  - set (wheel := if ss_spinning (session s) then _ else _).
    assert (Hw : data_file (snd wheel) = data_file s
                 /\ saves (snd wheel) = saves s
                 /\ restaurants_obj (mem (snd wheel)) = r :: rs
                 /\ ss_authenticated (session (snd wheel))
                    = ss_authenticated (session s)).
    { subst wheel. destruct (ss_spinning (session s)).
      - destruct (spin_animation (r :: rs) _) as [ms|e]; simpl;
          repeat split; exact El.
      - destruct (generate_wheel_svg (r :: rs) 0 None) as [m|e]; simpl;
          repeat split; exact El. }
    destruct wheel as [[|h] s1]; simpl in Hw; [|exact Hw].
    destruct Hw as (H1 & H2 & H3 & H4).
    destruct (spin_clicked ui && negb (ss_spinning (session s1))).
    + pose proof (spin_wheel_keeps_list (mem s1)) as Hk.
      destruct (spin_wheel (mem s1)) as [[chosen|e] w']; simpl in *;
        repeat split; try assumption; congruence.
    + destruct (truthy (ss_result (session s1))
                && negb (ss_spinning (session s1)));
        [destruct (spin_again_clicked ui)|]; simpl; repeat split; assumption.
Qed.

(** X11.  A run that starts without sign-in writes nothing: whatever the
    widgets hold (the add form, the edit rows and the bins included), the
    data file and the list are after the run what they were before, and
    [save_restaurants] is not called. *)
Theorem unauthenticated_run_never_writes (env : option string) (ui : widgets)
  (st : session_store) (file : data_file_content) (draws : nat -> Q)
  (drawn : nat) :
  stored_authenticated st <> Some true ->
  let s' := snd (run env ui st file draws drawn) in
  data_file s' = file /\ saves s' = 0%nat
  /\ restaurants_obj (mem s') = load_restaurants file.
Proof.
  intros Hna. unfold run, then_.
  set (s0 := mkApp _ _ _ _ _).
  assert (Ha : ss_authenticated (session s0) = false).
  { subst s0. simpl. destruct (stored_authenticated st) as [[|]|];
      [contradiction | reflexivity | reflexivity]. }
  pose proof (main_section_keeps ui s0) as Hk. cbv zeta in Hk.
  destruct (main_section ui s0) as [[|h] s1]; cbn [snd] in Hk |- *;
    destruct Hk as (H1 & H2 & H3 & H4).
  - rewrite Ha in H4.
    unfold admin_section. rewrite H4. simpl negb. cbv iota.
    destruct (login_clicked ui);
      [destruct (String.eqb (password_input ui) (ADMIN_PASSWORD env))|];
      simpl; repeat split; assumption.
  - repeat split; assumption.
Qed.

Lemma unauthenticated_run_never_writes_witness :
  data_file (snd (run None
     (mkWidgets false false "guess"%string true false "Pizza"%string 10 true
        (fun _ => Some "x"%string) (fun _ => None) (fun _ => true))
     (mkStore None None None None) (Some wheel3) (fun _ => 0) 0))
  = Some wheel3.
Proof.
  apply (unauthenticated_run_never_writes None _ (mkStore None None None None)).
  discriminate.
Defined.

Ltac state_simpl :=
  unfold save_restaurants, set_restaurants, set_spinning, set_result,
    set_authenticated, set_session, set_mem, show;
  cbn [mem data_file saves session screen restaurants_obj draws drawn
       ss_spinning ss_result ss_authenticated ss_spin_angle fst snd].

Lemma nth_error_middle {A : Type} (pre post : list A) (x : A) :
  nth_error (pre ++ x :: post) (List.length pre) = Some x.
Proof.
  rewrite nth_error_app2 by lia. rewrite Nat.sub_diag. reflexivity.
Qed.

Lemma pop_middle {A : Type} (pre post : list A) (x : A) :
  pop (List.length pre) (pre ++ x :: post) = pre ++ post.
Proof.
  unfold pop. rewrite firstn_app, Nat.sub_diag, firstn_all, app_nil_r.
  rewrite skipn_app, skipn_all2 by lia.
  replace (S (List.length pre) - List.length pre)%nat with 1%nat by lia.
  reflexivity.
Qed.

Lemma setitem_middle {A : Type} (pre post : list A) (x y : A) :
  setitem (List.length pre) y (pre ++ x :: post) = pre ++ y :: post.
Proof.
  unfold setitem. rewrite firstn_app, Nat.sub_diag, firstn_all, app_nil_r.
  rewrite skipn_app, skipn_all2 by lia.
  replace (S (List.length pre) - List.length pre)%nat with 1%nat by lia.
  reflexivity.
Qed.

Lemma edited_unchanged (ui : widgets) (idx : nat) (r : restaurant) :
  row_changed ui idx r = false -> edited ui idx r = r.
Proof.
  unfold row_changed, edited. intro H.
  apply orb_false_elim in H. destruct H as [Hn Hp].
  apply negb_false_iff in Hn, Hp.
  apply String.eqb_eq in Hn. apply Z.eqb_eq in Hp.
  rewrite Hn, Hp. destruct r. reflexivity.
Qed.

(** The loop of the edit rows, from any row on: what it leaves in the list,
    and when it writes the file. *)
Lemma edit_rows_spec (ui : widgets) :
  forall (post pre : list restaurant) (s : app_state),
    restaurants_obj (mem s) = pre ++ post ->
    exists s',
      edit_rows ui (List.length post) (List.length pre) s
      = ((if fst (rows_after ui (List.length pre) post)
          then Stop RerunRequested else Go), s')
      /\ restaurants_obj (mem s')
         = pre ++ snd (rows_after ui (List.length pre) post)
      /\ session s' = session s /\ screen s' = screen s
      /\ draws (mem s') = draws (mem s) /\ drawn (mem s') = drawn (mem s)
      /\ (saves s <= saves s')%nat
      /\ ((saves s < saves s')%nat ->
          data_file s' = Some (restaurants_obj (mem s')))
      /\ (saves s' = saves s -> data_file s' = data_file s)
      /\ (saves s' = saves s <->
          fst (rows_after ui (List.length pre) post) = false
          /\ forall k r, nth_error post k = Some r ->
                         row_changed ui (List.length pre + k) r = false).
Proof.
  induction post as [|r post IH]; intros pre s El.
  - exists s. simpl. rewrite app_nil_r in *.
    split; [reflexivity|]. split; [exact El|].
    split; [reflexivity|]. split; [reflexivity|].
    split; [reflexivity|]. split; [reflexivity|].
    split; [lia|]. split; [intro Hlt; lia|]. split; [reflexivity|].
    split; [|reflexivity].
    intros _. split; [reflexivity|]. intros k r Hk. destruct k; discriminate.
  - cbn [List.length edit_rows]. rewrite El, nth_error_middle.
    cbn [rows_after].
    destruct (row_delete ui (List.length pre)) eqn:Hdel.
    + eexists. split; [reflexivity|]. state_simpl.
      rewrite pop_middle.
      split; [reflexivity|]. split; [reflexivity|]. split; [reflexivity|].
      split; [reflexivity|]. split; [reflexivity|].
      split; [lia|]. split; [reflexivity|]. split; [intro Hq; lia|].
      split; [intro Hq; lia|]. intros (Hq & _). discriminate.
    + change (widget_value (row_name ui (List.length pre)) (name r))
        with (name (edited ui (List.length pre) r)).
      change (widget_value (row_prob ui (List.length pre)) (probability r))
        with (probability (edited ui (List.length pre) r)).
      change (negb (name (edited ui (List.length pre) r) =? name r)%string
              || negb (probability (edited ui (List.length pre) r)
                       =? probability r)%Z)
        with (row_changed ui (List.length pre) r).
      assert (Ee : mkRestaurant (name (edited ui (List.length pre) r))
                     (probability (edited ui (List.length pre) r))
                   = edited ui (List.length pre) r) by reflexivity.
      rewrite Ee.
      set (e := edited ui (List.length pre) r).
      set (s1 := if row_changed ui (List.length pre) r
                 then save_restaurants
                        (set_restaurants
                           (setitem (List.length pre) e (pre ++ r :: post)) s)
                 else s).
      assert (El1 : restaurants_obj (mem s1) = (pre ++ [e]) ++ post).
      { subst s1. rewrite <- app_assoc. simpl app.
        destruct (row_changed ui (List.length pre) r) eqn:Hc.
        - state_simpl. rewrite setitem_middle. reflexivity.
        - rewrite El. subst e. rewrite (edited_unchanged _ _ _ Hc).
          reflexivity. }
      destruct (IH (pre ++ [e]) s1 El1)
        as (s' & E & Hl & Hse & Hsc & Hd1 & Hd2 & Hle & Hgt & Heq & Hiff).
      rewrite length_app in E, Hl, Hiff. simpl List.length in E, Hl, Hiff.
      rewrite Nat.add_1_r in E, Hl, Hiff.
      destruct (rows_after ui (S (List.length pre)) post) as [pressed rest']
        eqn:Era.
      cbn [fst snd] in *.
      exists s'. split; [exact E|].
      assert (Hs1 : session s1 = session s /\ screen s1 = screen s
                    /\ draws (mem s1) = draws (mem s)
                    /\ drawn (mem s1) = drawn (mem s)
                    /\ (row_changed ui (List.length pre) r = true ->
                        saves s1 = S (saves s)
                        /\ data_file s1 = Some (restaurants_obj (mem s1)))
                    /\ (row_changed ui (List.length pre) r = false ->
                        s1 = s)).
      { subst s1. destruct (row_changed ui (List.length pre) r);
          state_simpl; repeat split; try reflexivity; discriminate. }
      destruct Hs1 as (A1 & A2 & A3 & A4 & A5 & A6).
      split; [rewrite Hl, <- app_assoc; reflexivity|].
      split; [congruence|]. split; [congruence|].
      split; [congruence|]. split; [congruence|].
      destruct (row_changed ui (List.length pre) r) eqn:Hc.
      * destruct (A5 eq_refl) as (B1 & B2).
        split; [lia|]. split.
        { intro H. destruct (Nat.eq_dec (saves s') (saves s1)) as [Hq|Hq].
          - rewrite (Heq Hq), B2. f_equal.
            apply Hiff in Hq. destruct Hq as (Hp & Hu).
            rewrite Hl, El1. subst pressed. 
            clear - Era Hu.
            enough (rest' = post) by (subst; reflexivity).
            revert rest' Era Hu. generalize (S (List.length pre)) as n.
            induction post as [|x post IHp]; intros n rest' Era Hu.
            + simpl in Era. injection Era as <-. reflexivity.
            + simpl in Era. destruct (row_delete ui n); [discriminate|].
              destruct (rows_after ui (S n) post) as [p rst] eqn:Er.
              injection Era as -> <-.
              rewrite (edited_unchanged ui n x).
              * f_equal. apply (IHp (S n) rst Er).
                intros k r0 Hk. specialize (Hu (S k) r0 Hk).
                rewrite <- Hu. f_equal. lia.
              * specialize (Hu 0%nat x eq_refl).
                rewrite <- Hu. f_equal. lia.
          - apply Hgt. lia. }
        split; [intro H; lia|].
        split; [intro H; lia|].
        intros (_ & Hu). specialize (Hu 0%nat r eq_refl).
        rewrite Nat.add_0_r in Hu. congruence.
      * rewrite (A6 eq_refl) in *.
        split; [exact Hle|]. split; [exact Hgt|]. split; [exact Heq|].
        split.
        { intro H. apply Hiff in H. destruct H as (Hp & Hu).
          split; [exact Hp|]. intros k r0 Hk. destruct k as [|k].
          - simpl in Hk. injection Hk as <-. rewrite Nat.add_0_r. exact Hc.
          - simpl in Hk. specialize (Hu k r0 Hk).
            rewrite <- Hu. f_equal. lia. }
        { intros (Hp & Hu). apply Hiff. split; [exact Hp|].
          intros k r0 Hk. specialize (Hu (S k) r0 Hk).
          rewrite <- Hu. f_equal. lia. }
Qed.





Lemma edited_rows_unchanged (ui : widgets) (rs : list restaurant) :
  forall idx,
    (forall k r, nth_error rs k = Some r -> row_changed ui (idx + k) r = false) ->
    edited_rows ui idx rs = rs.
Proof.
  induction rs as [|r rs IH]; intros idx H; [reflexivity|].
  simpl. rewrite (edited_unchanged ui idx r).
  - f_equal. apply IH. intros k r0 Hk.
    replace (S idx + k)%nat with (idx + S k)%nat by lia. apply H. exact Hk.
  - specialize (H 0%nat r eq_refl). rewrite Nat.add_0_r in H. exact H.
Qed.












Lemma rows_after_not_pressed (ui : widgets) (rs : list restaurant) :
  forall idx,
    fst (rows_after ui idx rs) = false ->
    snd (rows_after ui idx rs) = edited_rows ui idx rs.
Proof.
  induction rs as [|r rs IH]; intros idx H; [reflexivity|].
  simpl in *. destruct (row_delete ui idx); [discriminate|].
  specialize (IH (S idx)).
  destruct (rows_after ui (S idx) rs) as [pressed rest]. simpl in *.
  rewrite (IH H). reflexivity.
Qed.

(** What the admin panel can leave in the list and in the file. *)
Lemma admin_section_outcomes (env : option string) (ui : widgets)
  (s : app_state) :
  let s' := snd (admin_section env ui s) in
  (restaurants_obj (mem s') = restaurants_obj (mem s)
   \/ restaurants_obj (mem s')
      = restaurants_obj (mem s)
        ++ [mkRestaurant (strip (add_name ui)) (add_prob ui)]
   \/ restaurants_obj (mem s')
      = snd (rows_after ui 0 (restaurants_obj (mem s))))
  /\ (data_file s' = data_file s
      /\ restaurants_obj (mem s') = restaurants_obj (mem s)
      \/ data_file s' = Some (restaurants_obj (mem s')))
  /\ (exists tail, screen s' = screen s ++ tail)
  /\ ss_spinning (session s') = ss_spinning (session s)
  /\ ss_result (session s') = ss_result (session s).
Proof.
  assert (Hrows : forall s0 : app_state,
            let s' := snd (edit_rows ui (List.length (restaurants_obj (mem s0)))
                             0 s0) in
            restaurants_obj (mem s')
            = snd (rows_after ui 0 (restaurants_obj (mem s0)))
            /\ (data_file s' = data_file s0
                /\ restaurants_obj (mem s') = restaurants_obj (mem s0)
                \/ data_file s' = Some (restaurants_obj (mem s')))
            /\ screen s' = screen s0 /\ session s' = session s0).
  { intro s0.
    destruct (edit_rows_spec ui (restaurants_obj (mem s0)) [] s0 eq_refl)
      as (s' & E & Hl & Hse & Hsc & _ & _ & Hle & Hgt & Heq & Hiff).
    simpl List.length in E, Hl, Hiff. rewrite E. cbn [snd].
    split; [exact Hl|]. split; [|split; [exact Hsc | exact Hse]].
    destruct (Nat.eq_dec (saves s') (saves s0)) as [Hs|Hs].
    - left. split; [apply Heq; exact Hs|].
      apply Hiff in Hs. destruct Hs as (Hp & Hu).
      rewrite Hl. simpl app. rewrite (rows_after_not_pressed ui _ 0 Hp).
      apply (edited_rows_unchanged ui _ 0 Hu).
    - right. apply Hgt. lia. }
  unfold admin_section.
  destruct (ss_authenticated (session s)); simpl negb; cbv iota.
  - destruct (logout_clicked ui).
    + cbn [snd]. state_simpl. split; [left; reflexivity|].
      split; [left; split; reflexivity|]. split; [eexists; reflexivity|].
      split; reflexivity.
    + destruct (add_clicked ui).
      * destruct (strip (add_name ui)) as [|c t] eqn:Es.
        -- set (s0 := show NeedName (show AuthenticatedBanner s)).
           change (restaurants_obj (mem s0)) with (restaurants_obj (mem s)).
           destruct (restaurants_obj (mem s)) as [|r rs] eqn:El.
           ++ cbn [snd]. subst s0. state_simpl. split; [left; exact El|].
              split; [left; split; [reflexivity | exact El]|].
              split; [|split; reflexivity].
              eexists. rewrite <- app_assoc. reflexivity.
           ++ pose proof (Hrows s0) as H. cbv zeta in H.
              change (restaurants_obj (mem s0)) with (restaurants_obj (mem s))
                in H.
              rewrite El in H. destruct H as (H1 & H2 & H3 & H4).
              split; [right; right; exact H1|]. split; [exact H2|].
              rewrite H3, H4. split; [|split; reflexivity].
              subst s0. state_simpl. eexists. rewrite <- app_assoc.
              reflexivity.
        -- cbn [snd]. state_simpl. split; [right; left; reflexivity|].
           split; [right; reflexivity|]. split; [|split; reflexivity].
           eexists. rewrite <- app_assoc. reflexivity.
      * set (s0 := show AuthenticatedBanner s).
        change (restaurants_obj (mem s0)) with (restaurants_obj (mem s)).
        destruct (restaurants_obj (mem s)) as [|r rs] eqn:El.
        -- cbn [snd]. subst s0. state_simpl. split; [left; exact El|].
           split; [left; split; [reflexivity | exact El]|].
           split; [|split; reflexivity].
           eexists. reflexivity.
        -- pose proof (Hrows s0) as H. cbv zeta in H.
           change (restaurants_obj (mem s0)) with (restaurants_obj (mem s))
             in H.
           rewrite El in H. destruct H as (H1 & H2 & H3 & H4).
           split; [right; right; exact H1|]. split; [exact H2|].
           rewrite H3, H4. split; [|split; reflexivity].
           subst s0. state_simpl. eexists. reflexivity.
  - destruct (login_clicked ui);
      [destruct (String.eqb (password_input ui) (ADMIN_PASSWORD env))|];
      cbn [snd]; state_simpl;
      (split; [left; reflexivity|]); (split; [left; split; reflexivity|]);
      (split; [|split; reflexivity]).
    + exists []. rewrite app_nil_r. reflexivity.
    + eexists. reflexivity.
    + exists []. rewrite app_nil_r. reflexivity.
Qed.

Lemma rows_after_in_range (ui : widgets) :
  (forall k p, row_prob ui k = Some p -> in_range p) ->
  forall rs idx,
    Forall (fun r => in_range (probability r)) rs ->
    Forall (fun r => in_range (probability r)) (snd (rows_after ui idx rs)).
Proof.
  intros Hui rs. induction rs as [|r rs IH]; intros idx H; [constructor|].
  inversion H as [|? ? Hr Hrs]; subst.
  simpl. destruct (row_delete ui idx); [exact Hrs|].
  specialize (IH (S idx) Hrs).
  destruct (rows_after ui (S idx) rs) as [pressed rest]. simpl in *.
  constructor; [|exact IH].
  unfold edited. cbn [probability]. unfold widget_value.
  destruct (row_prob ui idx) as [p|] eqn:Ep;
    [apply (Hui idx p Ep) | exact Hr].
Qed.

Lemma in_range_total_positive (rs : list restaurant) :
  Forall (fun r => in_range (probability r)) rs -> rs <> [] ->
  (0 < total_probability rs)%Z.
Proof.
  intros H Hne. destruct rs as [|r rs]; [contradiction|].
  inversion H as [|? ? Hr Hrs]; subst. unfold total_probability.
  simpl map. rewrite sum_cons.
  assert (0 <= sum (map probability rs))%Z.
  { apply sum_nonneg. apply Forall_map.
    apply (Forall_impl _ (P := fun r => in_range (probability r)));
      [|exact Hrs].
    intros a Ha. unfold in_range in Ha. lia. }
  unfold in_range in Hr. lia.
Qed.

(** X15.  The weights stay in range.  If every stored weight is from 1 to
    100 and the numbers entered are (as the number fields enforce), then
    after any run, whatever is pressed or typed, every weight in the list
    and in the file is from 1 to 100; a list that is not empty then has a
    positive total and [generate_wheel_svg] draws it without raising. *)
Theorem weights_stay_in_range (env : option string) (ui : widgets)
  (st : session_store) (file : data_file_content) (draws : nat -> Q)
  (drawn : nat) :
  Forall (fun r => in_range (probability r)) (load_restaurants file) ->
  in_range (add_prob ui) ->
  (forall k p, row_prob ui k = Some p -> in_range p) ->
  let s' := snd (run env ui st file draws drawn) in
  Forall (fun r => in_range (probability r)) (restaurants_obj (mem s'))
  /\ Forall (fun r => in_range (probability r))
       (load_restaurants (data_file s'))
  /\ (load_restaurants (data_file s') <> [] ->
      exists segs,
        generate_wheel_svg (load_restaurants (data_file s')) 0 None
        = Ok (Wheel 0 segs)).
Proof.
  intros Hfile Hadd Hrows. unfold run, then_.
  set (s0 := mkApp _ _ _ _ _).
  pose proof (main_section_keeps ui s0) as Hk. cbv zeta in Hk.
  assert (Hmem : Forall (fun r => in_range (probability r))
                   (restaurants_obj (mem (snd (match main_section ui s0 with
                      | (Go, s1) => admin_section env ui s1
                      | (Stop h, s1) => (Stop h, s1) end))))
                 /\ Forall (fun r => in_range (probability r))
                      (load_restaurants (data_file (snd (match main_section ui s0 with
                      | (Go, s1) => admin_section env ui s1
                      | (Stop h, s1) => (Stop h, s1) end))))).
  { destruct (main_section ui s0) as [[|h] s1]; cbn [snd] in Hk |- *;
      destruct Hk as (H1 & H2 & H3 & _).
    - pose proof (admin_section_outcomes env ui s1) as Ho. cbv zeta in Ho.
      destruct Ho as (Hl & Hf & _).
      assert (Hm : Forall (fun r => in_range (probability r))
                     (restaurants_obj (mem (snd (admin_section env ui s1))))).
      { destruct Hl as [Hl|[Hl|Hl]]; rewrite Hl, H3.
        - exact Hfile.
        - apply Forall_app. split; [exact Hfile|].
          constructor; [exact Hadd | constructor].
        - apply rows_after_in_range; [exact Hrows | exact Hfile]. }
      split; [exact Hm|].
      destruct Hf as [(Hf & _)|Hf]; rewrite Hf;
        [rewrite H1; exact Hfile | exact Hm].
    - rewrite H3, H1. split; exact Hfile. }
  destruct Hmem as (Hm & Hf). split; [exact Hm|]. split; [exact Hf|].
  intro Hne.
  pose proof (in_range_total_positive _ Hf Hne) as Hpos.
  assert (Ht : total_probability
                 (load_restaurants (data_file (snd (match main_section ui s0 with
                      | (Go, s1) => admin_section env ui s1
                      | (Stop h, s1) => (Stop h, s1) end)))) <> 0%Z) by lia.
  destruct (generate_wheel_svg_spec _ 0 None Ht) as (segs & E & _).
  exists segs. exact E.
Qed.

Lemma weights_stay_in_range_witness :
  Forall (fun r => in_range (probability r))
    (load_restaurants
       (data_file (snd (run None add_diner
                          (mkStore None None (Some true) None)
                          (Some wheel3) (fun _ => 0) 0)))).
Proof.
  apply (weights_stay_in_range None add_diner
           (mkStore None None (Some true) None) (Some wheel3) (fun _ => 0) 0).
  - repeat constructor; unfold in_range; simpl; lia.
  - unfold in_range. simpl. lia.
  - intros k p H. discriminate.
Defined.

(** X20.  Nothing is changed without being saved: at the end of every run,
    however it ends, the data file holds the list as it stands in memory
    (an absent file standing for the empty list), so the next run loads what
    this one left. *)
Theorem file_follows_list (env : option string) (ui : widgets)
  (st : session_store) (file : data_file_content) (draws : nat -> Q)
  (drawn : nat) :
  load_restaurants (data_file (snd (run env ui st file draws drawn)))
  = restaurants_obj (mem (snd (run env ui st file draws drawn))).
Proof.
  unfold run, then_.
  set (s0 := mkApp _ _ _ _ _).
  pose proof (main_section_keeps ui s0) as Hk. cbv zeta in Hk.
  destruct (main_section ui s0) as [[|h] s1]; cbn [snd] in Hk |- *;
    destruct Hk as (H1 & _ & H3 & _).
  - pose proof (admin_section_outcomes env ui s1) as Ho. cbv zeta in Ho.
    destruct Ho as (_ & [(Hf & Hl)|Hf] & _).
    + rewrite Hf, Hl, H1, H3. reflexivity.
    + rewrite Hf. reflexivity.
  - rewrite H1, H3. reflexivity.
Qed.

Lemma spin_animation_zero_total (restaurants : list restaurant)
  (winner_idx : nat) :
  total_probability restaurants = 0%Z ->
  spin_animation restaurants winner_idx = Raise ZeroDivisionError.
Proof.
  intro Hz. unfold spin_animation.
  change (seq 0 frames) with (0%nat :: seq 1 59).
  cbn [animation_loop]. unfold frame_rotation.
  rewrite (target_rotation_zero_total _ _ Hz). reflexivity.
Qed.

(** X16.  A stored list that is not empty and whose weights sum to zero
    stops every run: whatever the session and the widgets, the run ends in
    [ZeroDivisionError] in the wheel section, with nothing on the page and
    nothing written, and never reaches the admin panel, where the weights
    could be edited. *)
Theorem zero_total_stops_every_run (env : option string) (ui : widgets)
  (st : session_store) (restaurants : list restaurant) (draws : nat -> Q)
  (drawn : nat) :
  restaurants <> [] -> total_probability restaurants = 0%Z ->
  run env ui st (Some restaurants) draws drawn
  = (Stop (Raised ZeroDivisionError),
     mkApp (mkWorld restaurants draws drawn) (Some restaurants) 0
       (init_session st) []).
Proof.
  intros Hne Hz. unfold run, then_, main_section.
  cbn [mem restaurants_obj load_restaurants session].
  destruct restaurants as [|r rs]; [contradiction|].
  destruct (ss_spinning (init_session st)).
  - rewrite (spin_animation_zero_total _ _ Hz). reflexivity.
  - rewrite (generate_wheel_svg_zero_total (r :: rs) 0 None Hne Hz).
    reflexivity.
Qed.

Lemma zero_total_stops_every_run_witness :
  run None add_diner (mkStore None None (Some true) None) (Some zero_wheel)
    (fun _ => 0) 0
  = (Stop (Raised ZeroDivisionError),
     mkApp (mkWorld zero_wheel (fun _ => 0) 0) (Some zero_wheel) 0
       (init_session (mkStore None None (Some true) None)) []).
Proof.
  apply zero_total_stops_every_run; [discriminate | reflexivity].
Defined.

(** X17.  Pressing the wheel button.  In a run that is not animating, over
    a stored list whose weights do not sum to zero: the wheel is drawn once
    at rest, without highlight; [spin_wheel] makes one draw; its result, the
    name of a restaurant of the list, is stored in the session together with
    the spinning flag, and the run asks for a rerun.  Nothing is written and
    the sign-in is not changed. *)
Theorem spin_click_stores_a_name (env : option string) (ui : widgets)
  (st : session_store) (restaurants : list restaurant) (draws : nat -> Q)
  (drawn : nat) :
  stored_spinning st <> Some true ->
  total_probability restaurants <> 0%Z ->
  spin_clicked ui = true ->
  exists s' i r plain,
    run env ui st (Some restaurants) draws drawn = (Stop RerunRequested, s')
    /\ nth_error restaurants i = Some r
    /\ ss_result (session s') = Some (name r)
    /\ ss_spinning (session s') = true
    /\ ss_authenticated (session s') = ss_authenticated (init_session st)
    /\ generate_wheel_svg restaurants 0 None = Ok (Wheel 0 plain)
    /\ screen s' = [ShowWheel (Wheel 0 plain)]
    /\ mem s' = mkWorld restaurants draws (S drawn)
    /\ data_file s' = Some restaurants /\ saves s' = 0%nat.
Proof.
  intros Hns Ht Hclick.
  pose proof (total_probability_nonempty _ Ht) as Hne.
  destruct (generate_wheel_svg_spec restaurants 0 None Ht) as (plain & Eg & _).
  destruct (spin_wheel_picks (mkWorld restaurants draws drawn) Hne)
    as (i & r & Hr & Es).
  assert (Hsp : ss_spinning (init_session st) = false).
  { unfold init_session. simpl.
    destruct (stored_spinning st) as [[|]|];
      [contradiction | reflexivity | reflexivity]. }
  unfold run, then_, main_section.
  cbn [mem restaurants_obj load_restaurants session].
  destruct restaurants as [|r0 rs]; [contradiction|].
  rewrite Hsp, Eg. state_simpl. rewrite Hclick, Hsp. simpl andb. cbv iota.
  rewrite Es.
  eexists. exists i, r, plain. split; [reflexivity|]. state_simpl.
  repeat split; try reflexivity. exact Hr.
Qed.

Lemma spin_click_stores_a_name_witness :
  exists s' i r,
    run None press_spin (mkStore None None None None) (Some wheel3)
      (fun _ => 1 # 2) 0
    = (Stop RerunRequested, s')
    /\ nth_error wheel3 i = Some r
    /\ ss_result (session s') = Some (name r)
    /\ ss_spinning (session s') = true.
Proof.
  destruct (spin_click_stores_a_name None press_spin
              (mkStore None None None None) wheel3 (fun _ => 1 # 2) 0)
    as (s' & i & r & plain & E & Hr & H1 & H2 & _).
  - discriminate.
  - discriminate.
  - reflexivity.
  - exists s', i, r. repeat split; assumption.
Defined.

(** X18.  The run after a press.  With the spinning flag stored and the
    weights not summing to zero, the page starts with the sixty-one wheels of
    the animation towards the first restaurant that bears the stored result,
    followed by the announcement of that result; the run clears the spinning
    flag, so that at its end the flag is set only if the wheel button is
    pressed again. *)
Theorem spinning_run_animates (env : option string) (ui : widgets)
  (st : session_store) (final_result : option string)
  (restaurants : list restaurant) (draws : nat -> Q) (drawn : nat) :
  stored_spinning st = Some true ->
  stored_result st = Some final_result ->
  total_probability restaurants <> 0%Z ->
  exists ms tail,
    spin_animation restaurants (winner_index restaurants final_result) = Ok ms
    /\ List.length ms = 61%nat
    /\ screen (snd (run env ui st (Some restaurants) draws drawn))
       = map ShowWheel ms ++ Announce final_result :: tail
    /\ ss_spinning (session (snd (run env ui st (Some restaurants) draws drawn)))
       = spin_clicked ui.
Proof.
  intros Hsp Hres Ht.
  pose proof (total_probability_nonempty _ Ht) as Hne.
  destruct (last_frame_falls_short restaurants
              (winner_index restaurants final_result) Ht)
    as (target & ms & _ & _ & _ & Ea & _ & _ & Hl & _).
  exists ms.
  assert (Hs1 : ss_spinning (init_session st) = true)
    by (unfold init_session; simpl; rewrite Hsp; reflexivity).
  assert (Hr1 : ss_result (init_session st) = final_result)
    by (unfold init_session; simpl; rewrite Hres; reflexivity).
  unfold run, then_, main_section.
  set (ss := init_session st) in *. clearbody ss.
  cbn [mem restaurants_obj load_restaurants session].
  destruct restaurants as [|r0 rs]; [contradiction|].
  rewrite Hs1, Hr1, Ea. state_simpl. rewrite ?Hr1. simpl app.
  destruct (spin_clicked ui) eqn:Hclick; simpl andb; cbv iota.
  - destruct (spin_wheel_picks (mkWorld (r0 :: rs) draws drawn))
      as (i & r & Hr & Es); [discriminate|].
    rewrite Es. state_simpl.
    exists []. split; [reflexivity|]. split; [exact Hl|].
    split; reflexivity.
  - destruct (truthy final_result && true) eqn:Htr;
      [destruct (spin_again_clicked ui)|].
    + state_simpl. exists []. split; [reflexivity|]. split; [exact Hl|].
      split; reflexivity.
    + match goal with |- context [admin_section env ui ?s1] =>
        pose proof (admin_section_outcomes env ui s1) as Ho end.
      cbv zeta in Ho. destruct Ho as (_ & _ & (tail & Hsc) & Hspin & _).
      exists tail. split; [reflexivity|]. split; [exact Hl|].
      rewrite Hsc, Hspin. state_simpl. rewrite <- app_assoc.
      split; reflexivity.
    + match goal with |- context [admin_section env ui ?s1] =>
        pose proof (admin_section_outcomes env ui s1) as Ho end.
      cbv zeta in Ho. destruct Ho as (_ & _ & (tail & Hsc) & Hspin & _).
      exists tail. split; [reflexivity|]. split; [exact Hl|].
      rewrite Hsc, Hspin. state_simpl. rewrite <- app_assoc.
      split; reflexivity.
Qed.

Lemma spinning_run_animates_witness :
  exists ms tail,
    spin_animation wheel3 (winner_index wheel3 (Some "C"%string)) = Ok ms
    /\ screen (snd (run None quiet
                      (mkStore (Some true) (Some (Some "C"%string)) None None)
                      (Some wheel3) (fun _ => 0) 0))
       = map ShowWheel ms ++ Announce (Some "C"%string) :: tail.
Proof.
  destruct (spinning_run_animates None quiet
              (mkStore (Some true) (Some (Some "C"%string)) None None)
              (Some "C"%string) wheel3 (fun _ => 0) 0)
    as (ms & tail & E & _ & H & _).
  - reflexivity.
  - reflexivity.
  - discriminate.
  - exists ms, tail. split; [exact E | exact H].
Defined.

(** X19.  Signing in.  A run that starts without sign-in ends signed in
    only if Login was pressed with the typed password equal to
    [ADMIN_PASSWORD], the value of the environment variable or, without it,
    the default in the source; the run then asks for a rerun. *)
Theorem sign_in_needs_password (env : option string) (ui : widgets)
  (st : session_store) (file : data_file_content) (draws : nat -> Q)
  (drawn : nat) :
  stored_authenticated st <> Some true ->
  ss_authenticated (session (snd (run env ui st file draws drawn))) = true ->
  login_clicked ui = true
  /\ password_input ui = ADMIN_PASSWORD env
  /\ fst (run env ui st file draws drawn) = Stop RerunRequested.
Proof.
  intros Hna. unfold run, then_.
  set (s0 := mkApp _ _ _ _ _).
  assert (Ha : ss_authenticated (session s0) = false).
  { subst s0. simpl. destruct (stored_authenticated st) as [[|]|];
      [contradiction | reflexivity | reflexivity]. }
  pose proof (main_section_keeps ui s0) as Hk. cbv zeta in Hk.
  destruct (main_section ui s0) as [[|h] s1]; cbn [snd fst] in Hk |- *;
    destruct Hk as (_ & _ & _ & H4); rewrite Ha in H4.
  - unfold admin_section. rewrite H4. simpl negb. cbv iota.
    destruct (login_clicked ui).
    + destruct (String.eqb_spec (password_input ui) (ADMIN_PASSWORD env))
        as [Hp|Hp]; cbn [snd fst]; state_simpl; intro H.
      * split; [reflexivity|]. split; [exact Hp | reflexivity].
      * congruence.
    + cbn [snd]. intro H. congruence.
  - intro H. congruence.
Qed.

Lemma sign_in_needs_password_witness :
  login_clicked (mkWidgets false false "change-me-now-12345"%string true false
                   ""%string 10 false (fun _ => None) (fun _ => None)
                   (fun _ => false)) = true
  /\ "change-me-now-12345"%string = ADMIN_PASSWORD None.
Proof.
  destruct (sign_in_needs_password None
              (mkWidgets false false "change-me-now-12345"%string true false
                 ""%string 10 false (fun _ => None) (fun _ => None)
                 (fun _ => false))
              (mkStore None None None None) None (fun _ => 0) 0)
    as (H1 & H2 & _).
  - discriminate.
  - reflexivity.
  - split; [exact H1 | exact H2].
Defined.
